(** * A shallow embedding of datastore/memcache_file.go

    The write-behind, memory-cached datastore: a memcache core (data cache
    and directory cache), a bounded mutation channel and a pool of writer
    goroutines that persist mutations to the filesystem backend. *)

From Stdlib Require Import ZArith Lia.
From stdpp Require Import base list gmap strings relations.

(* ------------------------------------------------------------------ *)
(** ** Paths (api.DSPathSpec) *)

Inductive path_type :=
| PATH_TYPE_DATASTORE_PROTO
| PATH_TYPE_DATASTORE_JSON.

#[global] Instance path_type_eq_dec : EqDecision path_type.
Proof. solve_decision. Defined.

#[global] Instance path_type_countable : Countable path_type.
Proof.
  refine (inj_countable'
    (fun t => match t with PATH_TYPE_DATASTORE_PROTO => false
                         | PATH_TYPE_DATASTORE_JSON => true end)
    (fun b => if b then PATH_TYPE_DATASTORE_JSON else PATH_TYPE_DATASTORE_PROTO) _).
  by intros [].
Defined.

Record DSPathSpec := mkPath {
  Components : list string;
  Type_ : path_type
}.

#[global] Instance DSPathSpec_eq_dec : EqDecision DSPathSpec.
Proof. solve_decision. Defined.

#[global] Instance DSPathSpec_countable : Countable DSPathSpec.
Proof.
  refine (inj_countable' (fun p => (Components p, Type_ p))
                         (fun x => mkPath x.1 x.2) _).
  by intros [].
Defined.

(** urn.Dir(): the path with its last component removed. *)
Definition Dir (p : DSPathSpec) : DSPathSpec :=
  mkPath (removelast (Components p)) (Type_ p).

(** urn.AsDatastoreDirectory(config_obj): the canonical directory key of
    a path; it depends on the components only, one key per component
    sequence. *)
Definition AsDatastoreDirectory (p : DSPathSpec) : list string := Components p.

Definition bytes := list Byte.byte.

(** Errors surfaced by the store. *)
Inductive error :=
| ErrNotExist                 (* os.ErrNotExist *)
| ErrNoDirectoryMetadata      (* errorNoDirectoryMetadata *)
| ErrEncode (code : nat)
| ErrDecode (code : nat)
| ErrIO.

Inductive res (A : Type) :=
| Ok (a : A)
| Err (e : error).
Arguments Ok {A} a.
Arguments Err {A} e.

Definition IsNotExist (e : error) : bool :=
  match e with ErrNotExist => true | _ => false end.

(* ------------------------------------------------------------------ *)
(** ** The directory cache *)

Record DirectoryMetadata := mkMD {
  md_children : list DSPathSpec;
  md_full : bool
}.

Definition IsFull (md : DirectoryMetadata) : bool := md_full md.

(** The directory LRU, keyed by directory key; Get, Set and Remove. *)
Abbreviation DirectoryLRUCache := (gmap (list string) DirectoryMetadata).

(** The loop body shared by invalidateDirCache and get_file_dir_metadata:
    [for len(urn.Components()) > 0 { ... urn = urn.Dir() }]. The loop runs
    at most [len(urn.Components())] times, which is the fuel. *)
Fixpoint drop_nonfull_loop (fuel : nat) (dir_cache : DirectoryLRUCache)
    (urn : DSPathSpec) : DirectoryLRUCache :=
  match fuel with
  | O => dir_cache
  | S fuel' =>
      if Nat.ltb 0 (length (Components urn)) then
        let path := AsDatastoreDirectory urn in
        let dir_cache' :=
          match dir_cache !! path with
          | Some md => if negb (IsFull md)
                       then delete (AsDatastoreDirectory urn) dir_cache
                       else dir_cache
          | None => dir_cache
          end in
        drop_nonfull_loop fuel' dir_cache' (Dir urn)
      else dir_cache
  end.

Definition drop_nonfull_ancestors (dir_cache : DirectoryLRUCache)
    (urn : DSPathSpec) : DirectoryLRUCache :=
  drop_nonfull_loop (length (Components urn)) dir_cache urn.

(** MemcacheFileDataStore.invalidateDirCache *)
Definition invalidateDirCache (dir_cache : DirectoryLRUCache)
    (urn : DSPathSpec) : DirectoryLRUCache :=
  drop_nonfull_ancestors dir_cache urn.

(** get_file_dir_metadata: the directory-metadata resolver of the
    file-backed store. Returns the (possibly updated) directory cache and
    either the cached metadata or errorNoDirectoryMetadata. *)
Definition get_file_dir_metadata (dir_cache : DirectoryLRUCache)
    (urn : DSPathSpec) : DirectoryLRUCache * res DirectoryMetadata :=
  let path := AsDatastoreDirectory urn in
  match dir_cache !! path with
  | Some md => (dir_cache, Ok md)
  | None => (drop_nonfull_ancestors dir_cache (Dir urn), Err ErrNoDirectoryMetadata)
  end.

(** Which entries a walk from [cs] drops: a non-root prefix of [cs]
    (an ancestor, the path itself included, the root excluded) whose
    cached entry is present and not full. *)
Definition dropped (dir_cache : DirectoryLRUCache) (cs k : list string) : bool :=
  bool_decide (k <> []) && bool_decide (k `prefix_of` cs) &&
  match dir_cache !! k with
  | Some md => negb (IsFull md)
  | None => false
  end.

(* ------------------------------------------------------------------ *)
(** ** Configuration (config_proto.Config, the Datastore section) *)

Record DatastoreConfig := mkDatastoreConfig {
  MemcacheExpirationSec : Z;
  MemcacheWriteMutationBuffer : Z;
  MemcacheWriteMutationWriters : Z;
  MemcacheDatastoreMaxSize : Z;
  MemcacheDatastoreMaxItemSize : Z;
  MemcacheDatastoreMaxDirSize : Z
}.

(** [Datastore = None] is a nil [config_obj.Datastore]. *)
Record Config := mkConfig { Datastore : option DatastoreConfig }.

(** The two LRU constructors, recorded by the arguments they receive,
    in the order of the call sites: entry count, then per-item cap. *)
Record LRUParams := mkLRU { lru_max_size : Z; lru_max_item_size : Z }.

Definition NewDataLRUCache (data_max_size data_max_item_size : Z) : LRUParams :=
  mkLRU data_max_size data_max_item_size.

Definition NewDirectoryLRUCache (max_size max_item_size : Z) : LRUParams :=
  mkLRU max_size max_item_size.

Record StoreParams := mkStoreParams {
  data_cache_params : LRUParams;
  dir_cache_params : LRUParams
}.

(** NewMemcacheFileDataStore. The first test guards a nil Datastore, the
    two later ones dereference it unguarded: a nil Datastore panics there,
    modelled as [None]. *)
Definition NewMemcacheFileDataStore (config_obj : Config) : option StoreParams :=
  let data_max_size :=
    match Datastore config_obj with
    | Some d => if Z.ltb 0 (MemcacheDatastoreMaxSize d)
                then MemcacheDatastoreMaxSize d else 10000%Z
    | None => 10000%Z
    end in
  match Datastore config_obj with
  | None => None
  | Some d =>
      let data_max_item_size :=
        if Z.ltb 0 (MemcacheDatastoreMaxItemSize d)
        then MemcacheDatastoreMaxItemSize d else (64 * 1024)%Z in
      let dir_max_item_size :=
        if Z.ltb 0 (MemcacheDatastoreMaxDirSize d)
        then MemcacheDatastoreMaxDirSize d else 1000%Z in
      Some (mkStoreParams
              (NewDataLRUCache data_max_size data_max_item_size)
              (NewDirectoryLRUCache data_max_size dir_max_item_size))
  end.

(** The channel capacity StartWriter gives [self.writer]:
    [if buffer_size <= 0 { buffer_size = 1000 }]. *)
Definition writer_capacity (config_obj : Config) : Z :=
  let buffer_size :=
    match Datastore config_obj with
    | Some d => MemcacheWriteMutationBuffer d
    | None => 0%Z
    end in
  if Z.leb buffer_size 0 then 1000%Z else buffer_size.

(* ------------------------------------------------------------------ *)
(** ** Messages and their encodings (proto.Message, protojson, proto) *)

Class Codec (Message : Type) := {
  protojson_Marshal : Message -> res bytes;
  proto_Marshal : Message -> res bytes;
  protojson_Unmarshal : bytes -> res Message;
  proto_Unmarshal : bytes -> res Message
}.

Section Store.
Context {Message : Type} `{!Codec Message}.

(** The encoding step of SetSubject and SetSubjectWithCompletion:
    JSON for PATH_TYPE_DATASTORE_JSON, the binary encoding otherwise. *)
Definition serialize (urn : DSPathSpec) (message : Message) : res bytes :=
  if decide (Type_ urn = PATH_TYPE_DATASTORE_JSON)
  then protojson_Marshal message
  else proto_Marshal message.

Definition deserialize (urn : DSPathSpec) (data : bytes) : res Message :=
  if decide (Type_ urn = PATH_TYPE_DATASTORE_JSON)
  then protojson_Unmarshal data
  else proto_Unmarshal data.

(* ------------------------------------------------------------------ *)
(** ** The memcache core (MemcacheDatastore) *)

Record MemcacheDatastore := mkCore {
  data_cache : gmap DSPathSpec bytes;
  data_max_item_size : Z;
  dir_cache : DirectoryLRUCache
}.

Definition add_child (md : DirectoryMetadata) (urn : DSPathSpec) : DirectoryMetadata :=
  if decide (urn ∈ md_children md) then md
  else mkMD (urn :: md_children md) (md_full md).

Definition remove_child (md : DirectoryMetadata) (urn : DSPathSpec) : DirectoryMetadata :=
  mkMD (filter (fun c => c <> urn) (md_children md)) (md_full md).

(** Modelled from the spec: MemcacheDatastore.SetData (the memcache core
    is not under src/). The bytes are stored in the data cache unless they
    exceed the per-item cap ("oversized payloads are not cached"); the
    parent's metadata is fetched through the injected resolver, here
    get_file_dir_metadata, and the child is added when metadata is
    returned. *)
Definition core_SetData (c : MemcacheDatastore) (urn : DSPathSpec) (data : bytes) :
    MemcacheDatastore * option error :=
  let data_cache' :=
    if Z.ltb (data_max_item_size c) (Z.of_nat (length data))
    then data_cache c
    else <[urn := data]> (data_cache c) in
  let parent := Dir urn in
  let '(dir_cache', md) := get_file_dir_metadata (dir_cache c) parent in
  let dir_cache'' :=
    match md with
    | Ok md => <[AsDatastoreDirectory parent := add_child md urn]> dir_cache'
    | Err _ => dir_cache'
    end in
  (mkCore data_cache' (data_max_item_size c) dir_cache'', None).

(** Modelled from the spec: MemcacheDatastore.SetSubject, "encode msg per
    the Path's tag, store bytes in the data cache, and update the parent
    directory's metadata"; encoding errors are returned verbatim. *)
Definition core_SetSubject (c : MemcacheDatastore) (urn : DSPathSpec)
    (message : Message) : MemcacheDatastore * option error :=
  match serialize urn message with
  | Err e => (c, Some e)
  | Ok data => core_SetData c urn data
  end.

(** Modelled from the spec: MemcacheDatastore.GetSubject, NotFound when
    the path is absent from the data cache, else the decoded payload. *)
Definition core_GetSubject (c : MemcacheDatastore) (urn : DSPathSpec) : res Message :=
  match data_cache c !! urn with
  | None => Err ErrNotExist
  | Some data => deserialize urn data
  end.

(** Modelled from the spec: MemcacheDatastore.GetBuffer. *)
Definition core_GetBuffer (c : MemcacheDatastore) (urn : DSPathSpec) : res bytes :=
  match data_cache c !! urn with
  | None => Err ErrNotExist
  | Some data => Ok data
  end.

(** Modelled from the spec: MemcacheDatastore.DeleteSubject, "remove from
    the data cache and remove the child from the parent directory's
    metadata if that metadata is present". *)
Definition core_DeleteSubject (c : MemcacheDatastore) (urn : DSPathSpec) :
    MemcacheDatastore * option error :=
  let key := AsDatastoreDirectory (Dir urn) in
  let dir_cache' :=
    match dir_cache c !! key with
    | Some md => <[key := remove_child md urn]> (dir_cache c)
    | None => dir_cache c
    end in
  (mkCore (delete urn (data_cache c)) (data_max_item_size c) dir_cache', None).

(* ------------------------------------------------------------------ *)
(** ** The filesystem backend *)

Abbreviation FileStore := (gmap DSPathSpec bytes).

(** Modelled from the spec: readContentFromFile, whose error tells "not
    found" apart from other I/O failures; with [must_exist] a missing path
    is NotFound. Whether the read fails with an I/O error is the
    environment's choice [ok]. *)
Definition readContentFromFile (fs : FileStore) (urn : DSPathSpec)
    (must_exist : bool) (ok : bool) : res bytes :=
  if ok then
    match fs !! urn with
    | Some data => Ok data
    | None => if must_exist then Err ErrNotExist else Ok []
    end
  else Err ErrIO.

(** Modelled from the spec: writeContentToFile, create or replace. Whether
    the disk accepts the write is the environment's choice [ok]. *)
Definition writeContentToFile (fs : FileStore) (urn : DSPathSpec) (data : bytes)
    (ok : bool) : FileStore * option error :=
  if ok then (<[urn := data]> fs, None) else (fs, Some ErrIO).

(** Modelled from the spec: file_based_imp.DeleteSubject, idempotent.
    Whether the disk accepts the delete is the environment's choice [ok];
    a failed delete leaves the file in place. *)
Definition file_based_DeleteSubject (fs : FileStore) (urn : DSPathSpec) (ok : bool) :
    FileStore * option error :=
  if ok then (delete urn fs, None) else (fs, Some ErrIO).


(* ------------------------------------------------------------------ *)
(** ** Mutations and the writer channel *)

Definition MUTATION_OP_SET_SUBJECT : nat := 0.
Definition MUTATION_OP_DEL_SUBJECT : nat := 1.

(** A Mutation. [wg] is the address of the caller's sync.WaitGroup, an
    index into the world's table of WaitGroup counters; [completion] names
    the post-persist callback, if any. *)
Record Mutation := mkMutation {
  op : nat;
  urn : DSPathSpec;
  wg : nat;
  data : bytes;
  completion : option nat
}.

(** Observable events, in the order they happen. *)
Inductive event :=
| EvEnqueue (m : Mutation)                          (* self.writer <- m *)
| EvFileWrite (urn : DSPathSpec) (data : bytes) (ok : bool)
| EvFileDelete (urn : DSPathSpec) (ok : bool)
| EvCompletion (cb : nat)                           (* mutation.completion() *)
| EvDone (m : Mutation).                            (* mutation.wg.Done() *)

(** The public calls of the write path. *)
Inductive call :=
| CallSetSubjectWithCompletion (urn : DSPathSpec) (message : Message)
    (completion : option nat)
| CallSetSubject (urn : DSPathSpec) (message : Message)
| CallSetBuffer (urn : DSPathSpec) (data : bytes) (completion : option nat)
| CallDeleteSubject (urn : DSPathSpec).

(** Where the calling goroutine is inside its call: before it, at the
    [select] with the mutation to send and the error to return, after the
    [select], inside [wg.Wait()], or returned with an error (None = nil). *)
Inductive pc :=
| PStart (c : call)
| PSelect (c : call) (m : Mutation) (err : option error)
| PAfterSelect (c : call) (m : Mutation) (err : option error)
| PWait (c : call) (m : Mutation) (err : option error)
| PReturned (ret : option error).

Record World := mkWorld {
  w_cache : MemcacheDatastore;    (* self.cache *)
  w_fs : FileStore;               (* the filesystem backend *)
  w_writer : list Mutation;       (* the buffered channel self.writer *)
  w_capacity : nat;               (* its capacity, from StartWriter *)
  w_buffer : Z;                   (* config_obj.Datastore.MemcacheWriteMutationBuffer *)
  w_ctx_done : bool;              (* self.ctx.Done() is closed *)
  w_wgs : list nat;               (* WaitGroup counters, by address *)
  w_writers : nat;                (* writer goroutines still running *)
  w_trace : list event;
  w_hit : nat;                    (* metricDataLRUHit *)
  w_miss : nat;                   (* metricDataLRUMiss *)
  w_pc : pc                       (* the calling goroutine *)
}.

Definition set_pc (s : World) (p : pc) : World :=
  mkWorld (w_cache s) (w_fs s) (w_writer s) (w_capacity s) (w_buffer s)
    (w_ctx_done s) (w_wgs s) (w_writers s) (w_trace s) (w_hit s) (w_miss s) p.

Definition set_cache (s : World) (c : MemcacheDatastore) : World :=
  mkWorld c (w_fs s) (w_writer s) (w_capacity s) (w_buffer s)
    (w_ctx_done s) (w_wgs s) (w_writers s) (w_trace s) (w_hit s) (w_miss s) (w_pc s).

Definition set_writer (s : World) (q : list Mutation) : World :=
  mkWorld (w_cache s) (w_fs s) q (w_capacity s) (w_buffer s)
    (w_ctx_done s) (w_wgs s) (w_writers s) (w_trace s) (w_hit s) (w_miss s) (w_pc s).

Definition inc_hit (s : World) : World :=
  mkWorld (w_cache s) (w_fs s) (w_writer s) (w_capacity s) (w_buffer s)
    (w_ctx_done s) (w_wgs s) (w_writers s) (w_trace s) (S (w_hit s)) (w_miss s) (w_pc s).

Definition inc_miss (s : World) : World :=
  mkWorld (w_cache s) (w_fs s) (w_writer s) (w_capacity s) (w_buffer s)
    (w_ctx_done s) (w_wgs s) (w_writers s) (w_trace s) (w_hit s) (S (w_miss s)) (w_pc s).

(** [wg.Done()] *)
Definition wg_Done (wgs : list nat) (w : nat) : list nat :=
  match wgs !! w with
  | Some n => <[w := n - 1]> wgs
  | None => wgs
  end.

(** The part of each call before its [select]. SetSubject has no select:
    it stores the payload with SetData and writes the file itself. [fs_ok]
    is whether that direct file write succeeds. *)
Definition start_call (s : World) (c : call) (fs_ok : bool) : World :=
  match c with
  | CallSetSubjectWithCompletion urn message completion =>
      match serialize urn message with
      | Err e => set_pc s (PReturned (Some e))
      | Ok serialized_content =>
          let '(cache', err) := core_SetSubject (w_cache s) urn message in
          let w := length (w_wgs s) in
          let m := mkMutation MUTATION_OP_SET_SUBJECT urn w serialized_content completion in
          mkWorld cache' (w_fs s) (w_writer s) (w_capacity s) (w_buffer s)
            (w_ctx_done s) (w_wgs s ++ [1]) (w_writers s) (w_trace s)
            (w_hit s) (w_miss s) (PSelect c m err)
      end
  | CallSetSubject urn message =>
      match serialize urn message with
      | Err e => set_pc s (PReturned (Some e))
      | Ok serialized_content =>
          let '(cache', err) := core_SetData (w_cache s) urn serialized_content in
          match err with
          | Some e => set_pc (set_cache s cache') (PReturned (Some e))
          | None =>
              let '(fs', err') := writeContentToFile (w_fs s) urn serialized_content fs_ok in
              mkWorld cache' fs' (w_writer s) (w_capacity s) (w_buffer s)
                (w_ctx_done s) (w_wgs s) (w_writers s)
                (w_trace s ++ [EvFileWrite urn serialized_content fs_ok])
                (w_hit s) (w_miss s) (PReturned err')
          end
      end
  | CallSetBuffer urn data completion =>
      let '(cache', err) := core_SetData (w_cache s) urn data in
      match err with
      | Some e => set_pc (set_cache s cache') (PReturned (Some e))
      | None =>
          let w := length (w_wgs s) in
          let m := mkMutation MUTATION_OP_SET_SUBJECT urn w data completion in
          mkWorld cache' (w_fs s) (w_writer s) (w_capacity s) (w_buffer s)
            (w_ctx_done s) (w_wgs s ++ [1]) (w_writers s) (w_trace s)
            (w_hit s) (w_miss s) (PSelect c m None)
      end
  | CallDeleteSubject urn =>
      let '(cache', err) := core_DeleteSubject (w_cache s) urn in
      let w := length (w_wgs s) in
      let m := mkMutation MUTATION_OP_DEL_SUBJECT urn w [] None in
      mkWorld cache' (w_fs s) (w_writer s) (w_capacity s) (w_buffer s)
        (w_ctx_done s) (w_wgs s ++ [1]) (w_writers s) (w_trace s)
        (w_hit s) (w_miss s) (PSelect c m err)
  end.

(** The [case <-self.ctx.Done():] arm: the Set calls [return nil],
    DeleteSubject [break]s out of the select. *)
Definition on_ctx_done (c : call) (m : Mutation) (err : option error) : pc :=
  match c with
  | CallDeleteSubject _ => PAfterSelect c m err
  | _ => PReturned None
  end.

(** The [case self.writer <- m:] arm. *)
Definition send (s : World) (c : call) (m : Mutation) (err : option error) : World :=
  mkWorld (w_cache s) (w_fs s) (w_writer s ++ [m]) (w_capacity s) (w_buffer s)
    (w_ctx_done s) (w_wgs s) (w_writers s) (w_trace s ++ [EvEnqueue m])
    (w_hit s) (w_miss s) (PAfterSelect c m err).

(** What the call returns at its end: SetBuffer returns nil, the others
    the error of the cache update. *)
Definition call_result (c : call) (err : option error) : option error :=
  match c with
  | CallSetBuffer _ _ _ => None
  | _ => err
  end.

(** [if config_obj.Datastore.MemcacheWriteMutationBuffer < 0 { wg.Wait() }] *)
Definition after_select (s : World) (c : call) (m : Mutation) (err : option error) : pc :=
  if Z.ltb (w_buffer s) 0 then PWait c m err else PReturned (call_result c err).

(** One iteration of a writer goroutine on a received mutation. [fs_ok] is
    whether the disk accepts the write or the delete; its error is not
    looked at. *)
Definition process_mutation (s : World) (m : Mutation) (fs_ok : bool) : World :=
  let c := w_cache s in
  if Nat.eqb (op m) MUTATION_OP_SET_SUBJECT then
    let '(fs', _) := writeContentToFile (w_fs s) (urn m) (data m) fs_ok in
    let c' := mkCore (data_cache c) (data_max_item_size c)
                (invalidateDirCache (dir_cache c) (urn m)) in
    let cb := match completion m with Some f => [EvCompletion f] | None => [] end in
    mkWorld c' fs' (w_writer s) (w_capacity s) (w_buffer s)
      (w_ctx_done s) (wg_Done (w_wgs s) (wg m)) (w_writers s)
      (w_trace s ++ [EvFileWrite (urn m) (data m) fs_ok] ++ cb ++ [EvDone m])
      (w_hit s) (w_miss s) (w_pc s)
  else if Nat.eqb (op m) MUTATION_OP_DEL_SUBJECT then
    let '(fs', _) := file_based_DeleteSubject (w_fs s) (urn m) fs_ok in
    let c' := mkCore (data_cache c) (data_max_item_size c)
                (invalidateDirCache (dir_cache c) (Dir (urn m))) in
    mkWorld c' fs' (w_writer s)
      (w_capacity s) (w_buffer s)
      (w_ctx_done s) (wg_Done (w_wgs s) (wg m)) (w_writers s)
      (w_trace s ++ [EvFileDelete (urn m) fs_ok; EvDone m])
      (w_hit s) (w_miss s) (w_pc s)
  else
    mkWorld c (w_fs s) (w_writer s) (w_capacity s) (w_buffer s)
      (w_ctx_done s) (wg_Done (w_wgs s) (wg m)) (w_writers s)
      (w_trace s ++ [EvDone m]) (w_hit s) (w_miss s) (w_pc s).

(** The calling goroutine. *)
Inductive caller_step : World -> World -> Prop :=
| cs_start s c fs_ok :
    w_pc s = PStart c -> caller_step s (start_call s c fs_ok)
| cs_select_ctx s c m err :
    w_pc s = PSelect c m err -> w_ctx_done s = true ->
    caller_step s (set_pc s (on_ctx_done c m err))
| cs_select_send s c m err :
    w_pc s = PSelect c m err -> length (w_writer s) < w_capacity s ->
    caller_step s (send s c m err)
| cs_after_select s c m err :
    w_pc s = PAfterSelect c m err ->
    caller_step s (set_pc s (after_select s c m err))
| cs_wait s c m err :
    w_pc s = PWait c m err -> w_wgs s !! wg m = Some 0 ->
    caller_step s (set_pc s (PReturned (call_result c err))).

(** The writer goroutines of StartWriter: each either sees the context
    done and returns, or receives the head of the channel. *)
Inductive worker_step : World -> World -> Prop :=
| ws_exit s :
    w_ctx_done s = true -> 0 < w_writers s ->
    worker_step s
      (mkWorld (w_cache s) (w_fs s) (w_writer s) (w_capacity s) (w_buffer s)
         (w_ctx_done s) (w_wgs s) (w_writers s - 1) (w_trace s)
         (w_hit s) (w_miss s) (w_pc s))
| ws_receive s m q fs_ok :
    w_writer s = m :: q -> 0 < w_writers s ->
    worker_step s (process_mutation (set_writer s q) m fs_ok).

(** The cancellation token fires. *)
Inductive cancel_step : World -> World -> Prop :=
| cancel s :
    cancel_step s
      (mkWorld (w_cache s) (w_fs s) (w_writer s) (w_capacity s) (w_buffer s)
         true (w_wgs s) (w_writers s) (w_trace s) (w_hit s) (w_miss s) (w_pc s)).

Inductive step (s s' : World) : Prop :=
| step_caller : caller_step s s' -> step s s'
| step_worker : worker_step s s' -> step s s'
| step_cancel : cancel_step s s' -> step s s'.

Definition steps : World -> World -> Prop := rtc step.

(* ------------------------------------------------------------------ *)
(** ** The read path *)

(** MemcacheFileDataStore.GetSubject (run under self.mu, so atomically).
    [read_ok] is whether the filesystem read, if any, succeeds. *)
Definition GetSubject (s : World) (urn : DSPathSpec) (read_ok : bool) :
    World * res Message :=
  match core_GetSubject (w_cache s) urn with
  | Err e =>
      if IsNotExist e then
        match readContentFromFile (w_fs s) urn true read_ok with
        | Err e' => (s, Err e')
        | Ok serialized_content =>
            let s1 := inc_miss s in
            let '(cache', _) := core_SetData (w_cache s1) urn serialized_content in
            (set_cache s1 cache', core_GetSubject cache' urn)
        end
      else (inc_hit s, Err e)
  | Ok message => (inc_hit s, Ok message)
  end.

(** MemcacheFileDataStore.GetBuffer, with [read_ok] as for GetSubject. *)
Definition GetBuffer (s : World) (urn : DSPathSpec) (read_ok : bool) :
    World * res bytes :=
  match core_GetBuffer (w_cache s) urn with
  | Ok bulk_data => (inc_hit s, Ok bulk_data)
  | Err _ =>
      match readContentFromFile (w_fs s) urn true read_ok with
      | Err e => (s, Err e)
      | Ok bulk_data =>
          let s1 := inc_miss s in
          let '(cache', _) := core_SetData (w_cache s1) urn bulk_data in
          (set_cache s1 cache', Ok bulk_data)
      end
  end.


(** A mutation has been fully handled by a writer goroutine: [wg.Done()]
    was called for it and, for a SET, the file write was attempted and the
    callback, if any, was run. *)
Definition processed (m : Mutation) (tr : list event) : Prop :=
  EvDone m ∈ tr /\
  (op m = MUTATION_OP_SET_SUBJECT ->
     (exists ok, EvFileWrite (urn m) (data m) ok ∈ tr) /\
     (forall f, completion m = Some f -> EvCompletion f ∈ tr)).

(** The invariant of write-through mode, for the one calling goroutine. *)
Definition wt_inv (s : World) : Prop :=
  (w_buffer s < 0)%Z /\
  Forall (fun m => wg m < length (w_wgs s)) (w_writer s) /\
  match w_pc s with
  | PStart _ => forall m, EvEnqueue m ∉ w_trace s
  | PSelect _ m _ =>
      w_wgs s !! wg m = Some 1 /\
      (forall m', m' ∈ w_writer s -> wg m' <> wg m) /\
      (forall m', EvEnqueue m' ∉ w_trace s)
  | PAfterSelect _ m _ | PWait _ m _ =>
      (forall m', m' ∈ w_writer s -> wg m' = wg m -> m' = m) /\
      (exists n, w_wgs s !! wg m = Some n /\ (n = 0 -> processed m (w_trace s))) /\
      (forall m', EvEnqueue m' ∈ w_trace s -> m' = m)
  | PReturned _ => forall m', EvEnqueue m' ∈ w_trace s -> processed m' (w_trace s)
  end.

(** The calling goroutine is parked after a select that did not send its
    mutation, with its WaitGroup still at 1 and write-through on. *)
Definition parked (s : World) : Prop :=
  (w_buffer s < 0)%Z /\
  exists c m err,
    (w_pc s = PAfterSelect c m err \/ w_pc s = PWait c m err) /\
    w_wgs s !! wg m = Some 1 /\
    (forall m', m' ∈ w_writer s -> wg m' <> wg m).

End Store.

(* ------------------------------------------------------------------ *)
(** ** Concrete inputs *)

(** A codec for concrete runs: a message is [Some payload], encoded as the
    payload itself; [None] stands for a message the encoders reject. *)
Definition sample_marshal (m : option bytes) : res bytes :=
  match m with Some b => Ok b | None => Err (ErrEncode 0) end.

#[global] Instance sample_codec : Codec (option bytes) := {
  protojson_Marshal := sample_marshal;
  proto_Marshal := sample_marshal;
  protojson_Unmarshal := fun b => Ok (Some b);
  proto_Unmarshal := fun b => Ok (Some b)
}.

(** The Datastore section with every field unset. *)
Definition unset_datastore : DatastoreConfig := mkDatastoreConfig 0 0 0 0 0 0.

Definition path_a : DSPathSpec := mkPath ["a"%string] PATH_TYPE_DATASTORE_PROTO.
Definition path_ab : DSPathSpec :=
  mkPath ["a"%string; "b"%string] PATH_TYPE_DATASTORE_JSON.

(** A world whose directory cache holds a non-full entry for the root. *)
Definition root_nonfull_world : World (Message := option bytes) :=
  mkWorld (mkCore ∅ 65536 {[ [] := mkMD [] false ]}) ∅ [] 1000 0 false [] 100 []
    0 0 (PReturned None).

(** A cancelled world whose empty data cache has a 1-byte per-item cap
    (MemcacheDatastoreMaxItemSize = 1), with a two-byte file at [path_a]. *)
Definition small_cap_world : World (Message := option bytes) :=
  mkWorld (mkCore ∅ 1 ∅) {[ path_a := [Byte.x01; Byte.x02] ]} [] 1000 (-1) true [] 100 []
    0 0 (PStart (CallSetSubjectWithCompletion path_a (Some [Byte.x01]) None)).

(** Write-through mode (buffer -1), one writer goroutine, the caller about
    to store [Some [1]] at [path_a] with callback 7. *)
Definition wt_call : call (Message := option bytes) :=
  CallSetSubjectWithCompletion path_a (Some [Byte.x01]) (Some 7).

Definition wt_world : World (Message := option bytes) :=
  mkWorld (mkCore ∅ 65536 ∅) ∅ [] 1000 (-1) false [] 1 [] 0 0 (PStart wt_call).

Definition wt_mutation : Mutation :=
  mkMutation MUTATION_OP_SET_SUBJECT path_a 0 [Byte.x01] (Some 7).

(** Write-through mode, the context already cancelled, 100 writer
    goroutines, the caller about to delete [path_a]. *)
Definition cancelled_delete_world : World (Message := option bytes) :=
  mkWorld (mkCore ∅ 65536 ∅) {[ path_a := [Byte.x01] ]} [] 1000 (-1) true [] 100 []
    0 0 (PStart (CallDeleteSubject path_a)).


(* ------------------------------------------------------------------ *)
(** ** StartWriter and its expiration policy *)

(** strings.HasSuffix: [len(s) >= len(suffix) &&
    s[len(s)-len(suffix):] == suffix], on the characters of the strings. *)
Definition HasSuffix (s suffix : string) : bool :=
  let l := String.list_ascii_of_string s in
  let x := String.list_ascii_of_string suffix in
  Nat.leb (length x) (length l) && bool_decide (drop (length l - length x) l = x).

(** MemcacheFileDataStore.ExpirationPolicy: [false] exempts the key from
    time-based expiry. *)
Definition ExpirationPolicy (key : string) : bool :=
  if HasSuffix key "ping.db" then false else true.

(** The expiry window StartWriter sets, in seconds (MemcacheExpirationSec
    is read as is, [if timeout == 0 { timeout = 600 }]). *)
Definition StartWriter_timeout (config_obj : Config) : Z :=
  let timeout :=
    match Datastore config_obj with
    | Some d => MemcacheExpirationSec d
    | None => 0%Z
    end in
  if Z.eqb timeout 0 then 600%Z else timeout.

(** The number of writer goroutines StartWriter starts:
    [if writers == 0 { writers = 100 }], then
    [for i := 0; i < writers; i++ { ... go func() ... }], which runs
    [max writers 0] times. *)
Definition StartWriter_writers (config_obj : Config) : nat :=
  let writers :=
    match Datastore config_obj with
    | Some d => MemcacheWriteMutationWriters d
    | None => 0%Z
    end in
  let writers := if Z.eqb writers 0 then 100%Z else writers in
  Z.to_nat writers.

Section Started.
Context {Message : Type} `{!Codec Message}.

(** The world right after StartWriter on a configuration with Datastore
    section [d]: an empty channel of capacity [writer_capacity], the
    writer goroutines it started, a live context, and one calling
    goroutine at [p]. *)
Definition StartWriter (d : DatastoreConfig) (cache : MemcacheDatastore)
    (fs : gmap DSPathSpec bytes) (p : pc (Message:=Message)) : World (Message:=Message) :=
  let config_obj := mkConfig (Some d) in
  mkWorld cache fs [] (Z.to_nat (writer_capacity config_obj))
    (MemcacheWriteMutationBuffer d) false [] (StartWriter_writers config_obj) []
    0 0 p.

(** The payload a call of the write path puts in the data cache at [u]:
    the encoding of the message for SetSubject and SetSubjectWithCompletion,
    the given bytes for SetBuffer. *)
Definition stores (c : call (Message:=Message)) (u : DSPathSpec) (b : bytes) : Prop :=
  match c with
  | CallSetSubjectWithCompletion u' message _ | CallSetSubject u' message =>
      u' = u /\ serialize u' message = Ok b
  | CallSetBuffer u' data _ => u' = u /\ data = b
  | CallDeleteSubject _ => False
  end.

End Started.

(** A codec whose decoder rejects the empty payload. *)
#[global] Instance strict_codec : Codec bytes := {
  protojson_Marshal := fun b => Ok b;
  proto_Marshal := fun b => Ok b;
  protojson_Unmarshal := fun b => match b with [] => Err (ErrDecode 1) | _ => Ok b end;
  proto_Unmarshal := fun b => match b with [] => Err (ErrDecode 1) | _ => Ok b end
}.



(** A Datastore section asking for a negative number of writers and
    write-through mode. *)
Definition no_writers_datastore : DatastoreConfig := mkDatastoreConfig 0 (-1) (-1) 0 0 0.


(** The write-through run of [wt_call]: the call, its send, the wait, one
    writer goroutine processing the mutation, and the return. *)
Definition wt_final : World (Message := option bytes) :=
  let s1 := start_call wt_world wt_call true in
  let s2 := send s1 wt_call wt_mutation None in
  let s3 := set_pc s2 (after_select s2 wt_call wt_mutation None) in
  let s4 := process_mutation (set_writer s3 []) wt_mutation true in
  set_pc s4 (PReturned (call_result wt_call None)).

(** The same run where the disk rejects the writer goroutine's write. *)
Definition wt_failed_final : World (Message := option bytes) :=
  let s1 := start_call wt_world wt_call true in
  let s2 := send s1 wt_call wt_mutation None in
  let s3 := set_pc s2 (after_select s2 wt_call wt_mutation None) in
  let s4 := process_mutation (set_writer s3 []) wt_mutation false in
  set_pc s4 (PReturned (call_result wt_call None)).

(** A data cache holding an empty payload at [path_a], which the strict
    codec cannot decode. *)
Definition corrupt_world : World (Message := bytes) :=
  mkWorld (mkCore {[ path_a := [] ]} 65536 ∅) {[ path_a := [Byte.x01] ]} [] 1000 0
    false [] 100 [] 0 0 (PReturned None).

(** The world after StartWriter on [no_writers_datastore], the caller about
    to SetBuffer one byte at [path_a]. *)
Definition no_writers_call : call (Message := option bytes) :=
  CallSetBuffer path_a [Byte.x01] None.

Definition no_writers_world : World (Message := option bytes) :=
  StartWriter no_writers_datastore (mkCore ∅ 65536 ∅) ∅ (PStart no_writers_call).



(* ================================================================== *)
(** * Theorems *)

(* ------------------------------------------------------------------ *)
(** ** The ancestor walk *)

Lemma prefix_of_removelast (k cs : list string) :
  cs <> [] ->
  (k `prefix_of` cs <-> k = cs \/ k `prefix_of` removelast cs).
Proof.
  intros Hcs.
  rewrite (app_removelast_last EmptyString Hcs) at 1 2.
  generalize (removelast cs) (List.last cs EmptyString). intros l x.
  split.
  - intros [r Hr].
    apply app_eq_inv in Hr as [(k0 & Hl & Hr) | (k0 & Hk & Hx)].
    + right. exists k0. done.
    + destruct k0 as [|y k0].
      * right. subst k. rewrite app_nil_r. done.
      * destruct k0; simpl in Hx; [|injection Hx as _ Hx; by destruct k0].
        injection Hx as -> Hr. subst k. left. done.
  - intros [-> | Hp].
    + done.
    + by apply prefix_app_r.
Qed.

Lemma dropped_nil (dir_cache : DirectoryLRUCache) (k : list string) :
  dropped dir_cache [] k = false.
Proof.
  unfold dropped.
  destruct (bool_decide (k <> [])) eqn:E1; [|done].
  apply bool_decide_eq_true in E1.
  rewrite bool_decide_eq_false_2; [done|].
  intros Hp. apply prefix_nil_inv in Hp. done.
Qed.

Lemma dropped_removelast (dir_cache : DirectoryLRUCache) (cs k : list string) :
  cs <> [] -> k <> cs ->
  dropped dir_cache cs k = dropped dir_cache (removelast cs) k.
Proof.
  intros Hcs Hk. unfold dropped.
  f_equal. f_equal. apply bool_decide_ext.
  rewrite prefix_of_removelast; [|done]. naive_solver.
Qed.

Lemma length_removelast_lt (cs : list string) :
  cs <> [] -> length (removelast cs) < length cs.
Proof.
  intros Hcs. rewrite (app_removelast_last EmptyString Hcs) at 2.
  rewrite length_app. simpl. lia.
Qed.

Lemma not_prefix_removelast (cs : list string) :
  cs <> [] -> ~ cs `prefix_of` removelast cs.
Proof.
  intros Hcs Hp. apply prefix_length in Hp.
  pose proof (length_removelast_lt cs Hcs). lia.
Qed.

Lemma drop_nonfull_loop_spec (fuel : nat) (dir_cache : DirectoryLRUCache)
    (urn : DSPathSpec) (k : list string) :
  length (Components urn) <= fuel ->
  drop_nonfull_loop fuel dir_cache urn !! k =
    if dropped dir_cache (Components urn) k then None else dir_cache !! k.
Proof.
  revert dir_cache urn. induction fuel as [|fuel IH]; intros dir_cache urn Hlen.
  - destruct urn as [cs t]; simpl in *.
    destruct cs; [|simpl in Hlen; lia].
    by rewrite dropped_nil.
  - destruct urn as [cs t]. simpl.
    destruct (Nat.ltb_spec 0 (length cs)) as [Hpos|Hz].
    2:{ destruct cs; [|simpl in Hz; lia]. by rewrite dropped_nil. }
    assert (Hcs : cs <> []) by (intros ->; simpl in Hpos; lia).
    unfold AsDatastoreDirectory, Dir; simpl.
    rewrite IH; simpl; cycle 1.
    { pose proof (length_removelast_lt cs Hcs). simpl in Hlen. lia. }
    destruct (decide (k = cs)) as [->|Hk].
    + assert (Hd : forall dc, dropped dc (removelast cs) cs = false).
      { intros dc. unfold dropped.
        rewrite (bool_decide_eq_false_2 (cs `prefix_of` removelast cs));
          [by rewrite andb_false_r|].
        by apply not_prefix_removelast. }
      rewrite Hd. unfold dropped.
      rewrite bool_decide_eq_true_2; [|done].
      rewrite bool_decide_eq_true_2; [|done]. simpl.
      destruct (dir_cache !! cs) as [md|] eqn:E; [|by rewrite E].
      unfold IsFull. destruct (md_full md); simpl.
      * done.
      * by rewrite lookup_delete_eq.
    + rewrite (dropped_removelast dir_cache cs k Hcs Hk).
      assert (Hl : (match dir_cache !! cs with
                    | Some md => if negb (IsFull md) then delete cs dir_cache
                                 else dir_cache
                    | None => dir_cache end) !! k = dir_cache !! k).
      { destruct (dir_cache !! cs) as [md|]; [|done].
        destruct (negb (IsFull md)); [|done].
        by rewrite lookup_delete_ne. }
      unfold dropped in *. rewrite Hl. done.
Qed.

Lemma drop_nonfull_ancestors_spec (dir_cache : DirectoryLRUCache)
    (urn : DSPathSpec) (k : list string) :
  drop_nonfull_ancestors dir_cache urn !! k =
    if dropped dir_cache (Components urn) k then None else dir_cache !! k.
Proof. by apply drop_nonfull_loop_spec. Qed.

Section Theorems.
Context {Message : Type} `{!Codec Message}.

(* ------------------------------------------------------------------ *)
(** ** Directory-cache invalidation by the writer goroutines *)

(** C5 (amended). When a writer goroutine processes a SET mutation, the
    directory cache afterwards lacks exactly the entries of the non-root
    prefixes of the mutation's path (the path itself and its ancestors,
    the root excluded) that were present and not full; every other entry,
    in particular every full one, is unchanged. For a DELETE mutation the
    same holds for the prefixes of the path's parent. *)
Theorem writer_invalidation_spec (s : World (Message:=Message)) (m : Mutation)
    (fs_ok : bool) (k : list string) :
  (op m = MUTATION_OP_SET_SUBJECT ->
   dir_cache (w_cache (process_mutation s m fs_ok)) !! k =
     if dropped (dir_cache (w_cache s)) (Components (urn m)) k
     then None else dir_cache (w_cache s) !! k) /\
  (op m = MUTATION_OP_DEL_SUBJECT ->
   dir_cache (w_cache (process_mutation s m fs_ok)) !! k =
     if dropped (dir_cache (w_cache s)) (Components (Dir (urn m))) k
     then None else dir_cache (w_cache s) !! k).
Proof.
  unfold process_mutation. split; intros Hop; rewrite Hop; simpl.
  - destruct (writeContentToFile _ _ _ _). simpl. apply drop_nonfull_ancestors_spec.
  - destruct (file_based_DeleteSubject _ _ _). simpl. apply drop_nonfull_ancestors_spec.
Qed.

(** C6 (amended). The resolver get_file_dir_metadata, asked about a
    directory: when the directory cache holds an entry for it, full or not,
    that entry is returned and the cache is unchanged; otherwise it returns
    errorNoDirectoryMetadata and the cache afterwards lacks exactly the
    present, non-full entries of the non-root prefixes of the directory's
    parent. *)
Theorem get_file_dir_metadata_spec (dc : DirectoryLRUCache) (dir : DSPathSpec)
    (k : list string) :
  match dc !! AsDatastoreDirectory dir with
  | Some md => get_file_dir_metadata dc dir = (dc, Ok md)
  | None =>
      (get_file_dir_metadata dc dir).2 = Err ErrNoDirectoryMetadata /\
      (get_file_dir_metadata dc dir).1 !! k =
        if dropped dc (Components (Dir dir)) k then None else dc !! k
  end.
Proof.
  unfold get_file_dir_metadata.
  destruct (dc !! AsDatastoreDirectory dir) as [md|]; [done|].
  split; [done|]. apply drop_nonfull_ancestors_spec.
Qed.

(** C7. A message that fails to encode makes SetSubjectWithCompletion and
    SetSubject return the encoding error at once: the world is unchanged
    but for the returned call (no cache update, nothing sent, no file
    written). *)
Theorem set_encode_failure_atomic (s : World (Message:=Message)) (u : DSPathSpec)
    (message : Message) (cb : option nat) (fs_ok : bool) (e : error) :
  serialize u message = Err e ->
  start_call s (CallSetSubjectWithCompletion u message cb) fs_ok
    = set_pc s (PReturned (Some e)) /\
  start_call s (CallSetSubject u message) fs_ok = set_pc s (PReturned (Some e)).
Proof. intros He. simpl. rewrite He. done. Qed.

(** C9. A writer goroutine that receives a SET mutation runs its
    completion callback, if any, and calls [wg.Done()] whether or not the
    file write succeeded; the mutation has left the channel and is not put
    back. *)
Theorem worker_set_always_completes (s : World (Message:=Message)) (m : Mutation)
    (q : list Mutation) (fs_ok : bool) :
  w_writer s = m :: q -> 0 < w_writers s -> op m = MUTATION_OP_SET_SUBJECT ->
  let s' := process_mutation (set_writer s q) m fs_ok in
  worker_step s s' /\
  w_writer s' = q /\
  w_wgs s' = wg_Done (w_wgs s) (wg m) /\
  w_trace s' = w_trace s ++ [EvFileWrite (urn m) (data m) fs_ok] ++
               match completion m with Some f => [EvCompletion f] | None => [] end ++
               [EvDone m] /\
  (fs_ok = false -> w_fs s' = w_fs s).
Proof.
  intros Hw Hn Hop s'. split; [by econstructor|].
  subst s'. unfold process_mutation. rewrite Hop. simpl.
  destruct fs_ok; simpl; repeat split; done.
Qed.

(* ------------------------------------------------------------------ *)
(** ** The write path, before and at the select *)

Lemma core_SetData_no_error (c : MemcacheDatastore) (u : DSPathSpec) (b : bytes) :
  (core_SetData c u b).2 = None.
Proof.
  unfold core_SetData. destruct (get_file_dir_metadata _ _) as [? []]; done.
Qed.

Lemma writer_snoc_neq (q : list Mutation) (m : Mutation) : q ++ [m] <> q.
Proof.
  intros E. apply (f_equal length) in E. rewrite length_app in E. simpl in E. lia.
Qed.

Ltac inv_caller H :=
  inversion H; subst; simpl in *; try congruence;
  repeat match goal with
  | E : PSelect _ _ _ = PSelect _ _ _ |- _ => injection E as <- <- <-
  | E : PStart _ = PStart _ |- _ => injection E as <-
  end.

(** C1 (code_bug). SetSubject on a message that encodes to [b] never
    reaches a select: in one step of the calling goroutine it stores [b]
    with SetData, writes the file itself and returns the write's result.
    No WaitGroup is added and nothing is sent to the writer channel; when
    the disk accepts the write, the file holds [b] at return. *)
Theorem SetSubject_bypasses_writer (s : World (Message:=Message)) (u : DSPathSpec)
    (message : Message) (fs_ok : bool) (b : bytes) :
  serialize u message = Ok b ->
  let s1 := start_call s (CallSetSubject u message) fs_ok in
  w_pc s1 = PReturned (if fs_ok then None else Some ErrIO) /\
  w_writer s1 = w_writer s /\ w_wgs s1 = w_wgs s /\
  w_trace s1 = w_trace s ++ [EvFileWrite u b fs_ok] /\
  w_cache s1 = (core_SetData (w_cache s) u b).1 /\
  (fs_ok = true -> w_fs s1 = <[u := b]> (w_fs s)).
Proof.
  intros Hser. simpl. rewrite Hser.
  pose proof (core_SetData_no_error (w_cache s) u b) as Hn.
  destruct (core_SetData (w_cache s) u b) as [c' err]. simpl in Hn. subst err.
  unfold writeContentToFile. destruct fs_ok; simpl; repeat split; done.
Qed.

(** C8. When the context is done before the channel accepts the SET
    mutation (the select does not send it), SetSubjectWithCompletion
    returns nil: the channel, the filesystem and the event trace are as
    before the call, and the cache holds the core's SetSubject update. *)
Theorem SetSubjectWithCompletion_cancelled (s s1 s2 : World (Message:=Message))
    (u : DSPathSpec) (message : Message) (cb : option nat) (b : bytes) :
  w_pc s = PStart (CallSetSubjectWithCompletion u message cb) ->
  serialize u message = Ok b ->
  caller_step s s1 -> caller_step s1 s2 ->
  w_writer s2 = w_writer s1 ->
  w_pc s2 = PReturned None /\ w_writer s2 = w_writer s /\ w_fs s2 = w_fs s /\
  w_trace s2 = w_trace s /\ w_cache s2 = (core_SetSubject (w_cache s) u message).1.
Proof.
  intros Hpc Hser H1 H2 Hw.
  destruct H1 as [s0 c0 fs0 Hc| s0 ? ? ? Hc _ | s0 ? ? ? Hc _ | s0 ? ? ? Hc
                 | s0 ? ? ? Hc _]; rewrite Hpc in Hc; try discriminate.
  injection Hc as <-. simpl in *. rewrite Hser in *.
  destruct (core_SetSubject (w_cache s0) u message) as [c' err] eqn:E.
  simpl in *.
  inv_caller H2.
  - auto.
  - exfalso. eapply writer_snoc_neq. eassumption.
Qed.

(* ------------------------------------------------------------------ *)
(** ** The read path *)

(** The fallback of GetSubject on a cache miss, when the read does not
    fail with an I/O error: for a file that exists the miss counter goes up
    and the file's bytes go through SetData; a missing file is NotFound. *)
Lemma GetSubject_miss (s : World (Message:=Message)) (u : DSPathSpec) :
  data_cache (w_cache s) !! u = None ->
  match w_fs s !! u with
  | None => GetSubject s u true = (s, Err ErrNotExist)
  | Some b =>
      let c' := (core_SetData (w_cache s) u b).1 in
      GetSubject s u true = (set_cache (inc_miss s) c', core_GetSubject c' u)
  end.
Proof.
  intros Hc.
  assert (Hg : core_GetSubject (w_cache s) u = Err ErrNotExist)
    by (unfold core_GetSubject; by rewrite Hc).
  unfold GetSubject. rewrite Hg. simpl.
  unfold readContentFromFile. destruct (w_fs s !! u) as [b|]; simpl.
  - destruct (core_SetData (w_cache s) u b). done.
  - reflexivity.
Qed.

(** C2 (code_bug). A path missing from the data cache whose file exists
    but is larger than the per-item cap: GetSubject reads the file
    successfully, counts a miss, hands the bytes to SetData, which does not
    cache them, and then reads the cache again, returning NotFound instead
    of the decoded file. *)
Theorem GetSubject_oversize_file_not_found (s : World (Message:=Message))
    (u : DSPathSpec) (b : bytes) :
  data_cache (w_cache s) !! u = None ->
  w_fs s !! u = Some b ->
  (data_max_item_size (w_cache s) < Z.of_nat (length b))%Z ->
  (GetSubject s u true).2 = Err ErrNotExist /\
  w_miss (GetSubject s u true).1 = S (w_miss s) /\
  readContentFromFile (w_fs s) u true true = Ok b.
Proof.
  intros Hc Hf Hb. pose proof (GetSubject_miss s u Hc) as G.
  rewrite Hf in G. simpl in G. rewrite G. simpl.
  unfold readContentFromFile. rewrite Hf.
  unfold core_SetData, core_GetSubject.
  rewrite (proj2 (Z.ltb_lt _ _) Hb).
  destruct (get_file_dir_metadata _ _) as [? []]; simpl; rewrite Hc; done.
Qed.


(* ------------------------------------------------------------------ *)
(** ** WaitGroups, traces and the shape of each step *)

Lemma wg_Done_length (wgs : list nat) (w : nat) :
  length (wg_Done wgs w) = length wgs.
Proof. unfold wg_Done. destruct (wgs !! w); [apply length_insert|done]. Qed.

Lemma wg_Done_ne (wgs : list nat) (w w' : nat) :
  w <> w' -> wg_Done wgs w !! w' = wgs !! w'.
Proof.
  intros Hne. unfold wg_Done. destruct (wgs !! w); [|done].
  by apply list_lookup_insert_ne.
Qed.

Lemma wg_Done_eq (wgs : list nat) (w n : nat) :
  wgs !! w = Some n -> wg_Done wgs w !! w = Some (n - 1).
Proof.
  intros H. unfold wg_Done. rewrite H.
  apply list_lookup_insert_eq. by eapply lookup_lt_Some.
Qed.

Lemma processed_app (m : Mutation) (tr tr' : list event) :
  processed m tr -> processed m (tr ++ tr').
Proof.
  intros [Hd Hs]. split; [set_solver|].
  intros Hop. destruct (Hs Hop) as [[ok Hw] Hc]. split.
  - exists ok. set_solver.
  - intros f Hf. specialize (Hc f Hf). set_solver.
Qed.

Lemma enqueue_not_in_app (tr evs : list event) (m : Mutation) :
  EvEnqueue m ∈ tr ++ evs -> (forall m', EvEnqueue m' ∉ evs) -> EvEnqueue m ∈ tr.
Proof.
  intros Hin Hevs. apply elem_of_app in Hin as [Hin|Hin]; [done|].
  exfalso. by apply (Hevs m).
Qed.

Lemma process_mutation_shape (s : World (Message:=Message)) (m : Mutation)
    (fs_ok : bool) :
  let s' := process_mutation s m fs_ok in
  w_writer s' = w_writer s /\ w_wgs s' = wg_Done (w_wgs s) (wg m) /\
  w_pc s' = w_pc s /\ w_buffer s' = w_buffer s /\
  exists evs, w_trace s' = w_trace s ++ evs /\ processed m (w_trace s') /\
              (forall m', EvEnqueue m' ∉ evs).
Proof.
  unfold process_mutation.
  destruct (Nat.eqb_spec (op m) MUTATION_OP_SET_SUBJECT) as [Hset|Hset].
  - destruct (writeContentToFile _ _ _ _). simpl.
    do 4 (split; [done|]).
    eexists. split; [done|]. split.
    + split; [set_solver|]. intros _. split.
      * exists fs_ok. set_solver.
      * intros f ->. set_solver.
    + intros m'. destruct (completion m); set_solver.
  - destruct (Nat.eqb_spec (op m) MUTATION_OP_DEL_SUBJECT);
      [destruct (file_based_DeleteSubject _ _ _)|]; simpl;
      (do 4 (split; [done|])); eexists; (split; [done|]);
      (split; [split; [set_solver|intros; contradiction]| set_solver]).
Qed.

Lemma start_call_shape (s : World (Message:=Message)) (c : call) (fs_ok : bool) :
  let s' := start_call s c fs_ok in
  w_writer s' = w_writer s /\ w_buffer s' = w_buffer s /\
  (exists evs, w_trace s' = w_trace s ++ evs /\ forall m', EvEnqueue m' ∉ evs) /\
  ((exists r, w_pc s' = PReturned r /\ w_wgs s' = w_wgs s) \/
   (exists c' m err, w_pc s' = PSelect c' m err /\ wg m = length (w_wgs s) /\
                     w_wgs s' = w_wgs s ++ [1])).
Proof.
  assert (Hnil : w_trace s = w_trace s ++ []) by (by rewrite app_nil_r).
  destruct c as [u msg cb|u msg|u b cb|u]; simpl.
  - destruct (serialize u msg) as [b0|e]; simpl.
    + destruct (core_SetSubject (w_cache s) u msg). simpl.
      do 2 (split; [done|]). split; [exists []; split; [done|set_solver]|].
      right. eauto 10.
    + do 2 (split; [done|]). split; [exists []; split; [done|set_solver]|]. eauto.
  - destruct (serialize u msg) as [b0|e]; simpl.
    + destruct (core_SetData (w_cache s) u b0) as [c' [e|]]; simpl.
      * do 2 (split; [done|]). split; [exists []; split; [done|set_solver]|]. eauto.
      * destruct (writeContentToFile (w_fs s) u b0 fs_ok). simpl.
        do 2 (split; [done|]). split; [eexists; split; [done|set_solver]|]. eauto.
    + do 2 (split; [done|]). split; [exists []; split; [done|set_solver]|]. eauto.
  - destruct (core_SetData (w_cache s) u b) as [c' [e|]]; simpl.
    + do 2 (split; [done|]). split; [exists []; split; [done|set_solver]|]. eauto.
    + do 2 (split; [done|]). split; [exists []; split; [done|set_solver]|].
      right. eauto 10.
  - destruct (core_DeleteSubject (w_cache s) u). simpl.
    do 2 (split; [done|]). split; [exists []; split; [done|set_solver]|].
    right. eauto 10.
Qed.


(* ------------------------------------------------------------------ *)
(** ** Write-through mode *)

Lemma pending_after_receive (s : World (Message:=Message)) (m0 : Mutation)
    (q : list Mutation) (fs_ok : bool) (m : Mutation) :
  w_writer s = m0 :: q ->
  let s' := process_mutation (set_writer s q) m0 fs_ok in
  (forall m', m' ∈ w_writer s -> wg m' = wg m -> m' = m) ->
  (exists n, w_wgs s !! wg m = Some n /\ (n = 0 -> processed m (w_trace s))) ->
  (forall m', EvEnqueue m' ∈ w_trace s -> m' = m) ->
  (forall m', m' ∈ w_writer s' -> wg m' = wg m -> m' = m) /\
  (exists n, w_wgs s' !! wg m = Some n /\ (n = 0 -> processed m (w_trace s'))) /\
  (forall m', EvEnqueue m' ∈ w_trace s' -> m' = m).
Proof.
  intros Hw s' Hq [n [Hn Hp]] He.
  destruct (process_mutation_shape (set_writer s q) m0 fs_ok)
    as (Hw' & Hg' & _ & _ & evs & Ht' & Hproc & Hevs).
  fold s' in Hw', Hg', Ht', Hproc. simpl in Hw', Hg', Ht'.
  split; [|split].
  - intros m' Hin. rewrite Hw' in Hin. apply Hq. rewrite Hw. set_solver.
  - rewrite Hg'. destruct (decide (wg m0 = wg m)) as [Heq|Hne].
    + assert (m0 = m) as <- by (apply Hq; [rewrite Hw; set_solver|done]).
      exists (n - 1). split; [by apply wg_Done_eq|]. intros _. done.
    + exists n. rewrite wg_Done_ne; [|done]. split; [done|].
      intros Hz. rewrite Ht'. by apply processed_app, Hp.
  - intros m' Hin. rewrite Ht' in Hin. apply He.
    by eapply enqueue_not_in_app.
Qed.

Lemma wt_inv_step (s s' : World (Message:=Message)) :
  wt_inv s -> step s s' -> wt_inv s'.
Proof.
  intros (Hb & Hf & Hpc) Hst. destruct Hst as [Hst|Hst|Hst].
  - destruct Hst as [s c fs_ok Hs|s c m err Hs Hctx|s c m err Hs Hlen
                    |s c m err Hs|s c m err Hs H0]; rewrite Hs in Hpc.
    + destruct (start_call_shape s c fs_ok)
        as (Hw' & Hb' & (evs & Ht' & Hevs) & [(r & Hr & Hg')|(c' & m & err & Hp' & Hwg & Hg')]).
      * split; [congruence|]. split.
        { by rewrite Hw', Hg'. }
        rewrite Hr. intros m' Hin. rewrite Ht' in Hin.
        exfalso. apply (Hpc m'). by eapply enqueue_not_in_app.
      * split; [congruence|]. split.
        { rewrite Hw', Hg'. eapply Forall_impl; [exact Hf|]. intros m0 Hm0.
          rewrite length_app; simpl in *; lia. }
        rewrite Hp'. split; [|split].
        -- rewrite Hg', Hwg. apply list_lookup_middle. done.
        -- intros m' Hin. rewrite Hw' in Hin. rewrite Hwg.
           rewrite Forall_forall in Hf. specialize (Hf m' Hin). lia.
        -- intros m' Hin. rewrite Ht' in Hin. apply (Hpc m').
           by eapply enqueue_not_in_app.
    + destruct Hpc as (H1 & Hne & He). split; [done|]. split; [done|].
      simpl. destruct c; simpl; try (intros m' Hin; by destruct (He m')).
      split; [|split].
      * intros m' Hin Heq. by destruct (Hne m' Hin).
      * exists 1. split; [done|lia].
      * intros m' Hin. by destruct (He m').
    + destruct Hpc as (H1 & Hne & He). split; [done|].
      assert (Hlt : wg m < length (w_wgs s)) by (by eapply lookup_lt_Some).
      split.
      { simpl. apply Forall_app. split; [done|]. by constructor. }
      simpl. split; [|split].
      * intros m' Hin Heq. apply elem_of_app in Hin as [Hin|Hin].
        -- by destruct (Hne m' Hin).
        -- by apply list_elem_of_singleton in Hin.
      * exists 1. split; [done|lia].
      * intros m' Hin. apply elem_of_app in Hin as [Hin|Hin].
        -- by destruct (He m').
        -- apply list_elem_of_singleton in Hin. congruence.
    + split; [done|]. split; [done|]. simpl. unfold after_select.
      rewrite (proj2 (Z.ltb_lt _ _) Hb). done.
    + destruct Hpc as (H1 & [n [Hn Hp]] & He). split; [done|]. split; [done|].
      simpl. intros m' Hin. rewrite (He m' Hin).
      rewrite H0 in Hn. injection Hn as <-. by apply Hp.
  - destruct Hst as [s Hctx Hn|s m0 q fs_ok Hw Hn].
    + split; [done|]. split; [done|]. exact Hpc.
    + destruct (process_mutation_shape (set_writer s q) m0 fs_ok)
        as (Hw' & Hg' & Hp' & Hb' & evs & Ht' & Hproc & Hevs).
      simpl in Hw', Hg', Hp', Hb', Ht'.
      rewrite Hw in Hf. apply Forall_cons in Hf as [Hf0 Hf].
      split; [congruence|]. split.
      { rewrite Hw', Hg', wg_Done_length. done. }
      rewrite Hp'. destruct (w_pc s) as [c|c m err|c m err|c m err|r] eqn:Hs.
      * intros m' Hin. rewrite Ht' in Hin. apply (Hpc m').
        by eapply enqueue_not_in_app.
      * destruct Hpc as (H1 & Hne & He). split; [|split].
        -- rewrite Hg', wg_Done_ne; [done|]. apply Hne. rewrite Hw. set_solver.
        -- intros m' Hin. rewrite Hw' in Hin. apply Hne. rewrite Hw. set_solver.
        -- intros m' Hin. rewrite Ht' in Hin. apply (He m').
           by eapply enqueue_not_in_app.
      * destruct Hpc as (H1 & H2 & H3). by apply pending_after_receive.
      * destruct Hpc as (H1 & H2 & H3). by apply pending_after_receive.
      * intros m' Hin. rewrite Ht' in Hin. rewrite Ht'.
        apply processed_app, Hpc. by eapply enqueue_not_in_app.
  - destruct Hst as [s]. split; [done|]. split; [done|]. exact Hpc.
Qed.

Lemma wt_inv_steps (s s' : World (Message:=Message)) :
  wt_inv s -> steps s s' -> wt_inv s'.
Proof. intros Hi Hs. induction Hs; eauto using wt_inv_step. Qed.

(** C3 (amended). Write-through mode (MemcacheWriteMutationBuffer < 0): in
    every run from the start of a call, with any interleaving of writer
    goroutines and cancellation, once the call has returned every mutation
    it sent has been handled by a writer goroutine: [wg.Done()] was called,
    the file write was attempted, successfully or not, and the completion
    callback was run. This
    covers SetSubjectWithCompletion and SetBuffer alike (and every other
    call of the write path). *)
Theorem write_through_returns_after_completion (s0 s : World (Message:=Message))
    (c : call) (m : Mutation) (r : option error) :
  w_pc s0 = PStart c ->
  (w_buffer s0 < 0)%Z ->
  Forall (fun m' => wg m' < length (w_wgs s0)) (w_writer s0) ->
  (forall m', EvEnqueue m' ∉ w_trace s0) ->
  steps s0 s ->
  EvEnqueue m ∈ w_trace s -> w_pc s = PReturned r ->
  processed m (w_trace s).
Proof.
  intros Hpc Hb Hf He Hs Hin Hr.
  assert (Hi : wt_inv s0) by (split; [done|]; split; [done|]; by rewrite Hpc).
  destruct (wt_inv_steps s0 s Hi Hs) as (_ & _ & Hp).
  rewrite Hr in Hp. by apply Hp.
Qed.


(* ------------------------------------------------------------------ *)
(** ** DeleteSubject after cancellation *)

Lemma parked_step (s s' : World (Message:=Message)) :
  parked s -> step s s' -> parked s'.
Proof.
  intros (Hb & c & m & err & Hpc & H1 & Hne) Hst.
  destruct Hst as [Hst|Hst|Hst].
  - destruct Hst as [s0 c0 fs_ok Hs|s0 c0 m0 err0 Hs Hctx|s0 c0 m0 err0 Hs Hlen
                    |s0 c0 m0 err0 Hs|s0 c0 m0 err0 Hs H0];
      destruct Hpc as [Hpc|Hpc]; rewrite Hs in Hpc; try discriminate.
    + injection Hpc as -> -> ->.
      split; [done|]. exists c, m, err. simpl. unfold after_select.
      rewrite (proj2 (Z.ltb_lt _ _) Hb). split; [by right|]. done.
    + injection Hpc as -> -> ->. congruence.
  - destruct Hst as [s0 Hctx Hn|s0 m0 q fs_ok Hw Hn].
    + split; [done|]. exists c, m, err. done.
    + destruct (process_mutation_shape (set_writer s0 q) m0 fs_ok)
        as (Hw' & Hg' & Hp' & Hb' & _).
      simpl in Hw', Hg', Hp', Hb'.
      split; [congruence|]. exists c, m, err. split; [by rewrite Hp'|].
      split.
      * rewrite Hg', wg_Done_ne; [done|]. apply Hne. rewrite Hw. set_solver.
      * intros m' Hin. rewrite Hw' in Hin. apply Hne. rewrite Hw. set_solver.
  - destruct Hst as [s0]. split; [done|]. exists c, m, err. done.
Qed.

Lemma parked_steps (s s' : World (Message:=Message)) :
  parked s -> steps s s' -> parked s'.
Proof. intros Hi Hs. induction Hs; eauto using parked_step. Qed.

(** C4 (code_bug). In write-through mode, a DeleteSubject whose select
    took the [ctx.Done()] arm (its mutation was not accepted by the
    channel) [break]s to [wg.Wait()] on a WaitGroup no writer goroutine
    will ever release: in no run that follows does the call return. *)
Theorem DeleteSubject_cancelled_never_returns (s0 s1 s2 s : World (Message:=Message))
    (u : DSPathSpec) (r : option error) :
  w_pc s0 = PStart (CallDeleteSubject u) ->
  (w_buffer s0 < 0)%Z ->
  Forall (fun m' => wg m' < length (w_wgs s0)) (w_writer s0) ->
  caller_step s0 s1 -> caller_step s1 s2 ->
  w_writer s2 = w_writer s1 ->
  steps s2 s -> w_pc s <> PReturned r.
Proof.
  intros Hpc Hb Hf H1 H2 Hw Hs.
  destruct H1 as [s0' c0 fs0 Hc| s0' ? ? ? Hc _ | s0' ? ? ? Hc _ | s0' ? ? ? Hc
                 | s0' ? ? ? Hc _]; rewrite Hpc in Hc; try discriminate.
  injection Hc as <-. simpl in *.
  assert (Hp : parked s2).
  { inv_caller H2.
    - split; [done|]. do 3 eexists. simpl. split; [by left|]. split.
      + by apply list_lookup_middle.
      + intros m' Hin. rewrite Forall_forall in Hf. specialize (Hf m' Hin).
        simpl in *. lia.
    - exfalso. eapply writer_snoc_neq. eassumption. }
  destruct (parked_steps s2 s Hp Hs) as (_ & c & m & err' & [Hr|Hr] & _);
    rewrite Hr; discriminate.
Qed.

End Theorems.

(* ------------------------------------------------------------------ *)
(** ** Construction *)

(** C10 (amended). With a Datastore section whose three size fields are
    unset (zero or negative), the data cache is built for 10,000 entries
    with a 65,536-byte per-item cap, and the directory cache is built with
    the same entry count, data_max_size = 10,000, and the per-item cap
    dir_max_item_size = 1,000. *)
Theorem NewMemcacheFileDataStore_defaults (d : DatastoreConfig) :
  (MemcacheDatastoreMaxSize d <= 0)%Z ->
  (MemcacheDatastoreMaxItemSize d <= 0)%Z ->
  (MemcacheDatastoreMaxDirSize d <= 0)%Z ->
  NewMemcacheFileDataStore (mkConfig (Some d)) =
    Some (mkStoreParams (mkLRU 10000 65536) (mkLRU 10000 1000)).
Proof.
  intros H1 H2 H3. unfold NewMemcacheFileDataStore. simpl.
  rewrite (proj2 (Z.ltb_ge 0 _) H1), (proj2 (Z.ltb_ge 0 _) H2),
          (proj2 (Z.ltb_ge 0 _) H3).
  done.
Qed.

Lemma NewMemcacheFileDataStore_defaults_witness :
  (MemcacheDatastoreMaxSize unset_datastore <= 0)%Z /\
  NewMemcacheFileDataStore (mkConfig (Some unset_datastore)) =
    Some (mkStoreParams (mkLRU 10000 65536) (mkLRU 10000 1000)).
Proof.
  split; [simpl; lia|].
  apply NewMemcacheFileDataStore_defaults; simpl; lia.
Defined.

(** C10 counterexample: with the size fields unset, the directory cache
    is given 10,000 as its entry count, not 1,000. *)
Lemma NewMemcacheFileDataStore_dir_size_counterexample :
  exists p, NewMemcacheFileDataStore (mkConfig (Some unset_datastore)) = Some p /\
            lru_max_size (dir_cache_params p) = 10000%Z /\
            lru_max_size (dir_cache_params p) <> 1000%Z.
Proof. eexists. split; [reflexivity|]. simpl. split; [done|lia]. Qed.

(** C5 counterexample: the root is an ancestor of every path, yet a
    non-full root entry survives the processing of a SET mutation. *)
Lemma invalidation_keeps_root_counterexample :
  let m := mkMutation MUTATION_OP_SET_SUBJECT path_ab 0 [] None in
  dir_cache (w_cache root_nonfull_world) !! [] = Some (mkMD [] false) /\
  dir_cache (w_cache (process_mutation root_nonfull_world m true)) !! []
    = Some (mkMD [] false).
Proof. split; reflexivity. Qed.

(** C6 counterexample: a present but non-full parent entry is returned. *)
Lemma resolver_returns_nonfull_counterexample :
  let dc : DirectoryLRUCache := {[ Components path_a := mkMD [] false ]} in
  get_file_dir_metadata dc path_a = (dc, Ok (mkMD [] false)) /\
  IsFull (mkMD [] false) = false.
Proof. split; reflexivity. Qed.

Lemma writer_invalidation_spec_witness :
  let m := mkMutation MUTATION_OP_SET_SUBJECT path_ab 0 [] None in
  dir_cache (w_cache (process_mutation root_nonfull_world m true)) !! [] =
    if dropped (dir_cache (w_cache root_nonfull_world)) (Components (urn m)) []
    then None else dir_cache (w_cache root_nonfull_world) !! [].
Proof.
  apply (proj1 (writer_invalidation_spec root_nonfull_world
                  (mkMutation MUTATION_OP_SET_SUBJECT path_ab 0 [] None) true [])).
  reflexivity.
Defined.

Lemma set_encode_failure_atomic_witness :
  serialize path_a (None : option bytes) = Err (ErrEncode 0) /\
  start_call root_nonfull_world (CallSetSubject path_a None) true
    = set_pc root_nonfull_world (PReturned (Some (ErrEncode 0))).
Proof.
  split; [reflexivity|].
  apply (set_encode_failure_atomic root_nonfull_world path_a None None true
           (ErrEncode 0)).
  reflexivity.
Defined.

Lemma SetSubjectWithCompletion_cancelled_witness :
  let c := CallSetSubjectWithCompletion path_a (Some [Byte.x01]) None in
  let s1 := start_call small_cap_world c true in
  let s2 := match w_pc s1 with
            | PSelect c m err => set_pc s1 (on_ctx_done c m err)
            | _ => s1 end in
  caller_step small_cap_world s1 /\ caller_step s1 s2 /\
  w_pc s2 = PReturned None.
Proof.
  intros c s1 s2.
  assert (H1 : caller_step small_cap_world s1)
    by (apply (cs_start small_cap_world c true); reflexivity).
  assert (H2 : caller_step s1 s2).
  { apply (cs_select_ctx s1 c
             (mkMutation MUTATION_OP_SET_SUBJECT path_a 0 [Byte.x01] None) None);
      reflexivity. }
  split; [done|]. split; [done|].
  apply (SetSubjectWithCompletion_cancelled small_cap_world s1 s2 path_a
           (Some [Byte.x01]) None [Byte.x01]); try done.
Defined.

Lemma GetSubject_oversize_file_not_found_witness :
  (GetSubject small_cap_world path_a true).2 = Err ErrNotExist /\
  readContentFromFile (w_fs small_cap_world) path_a true true = Ok [Byte.x01; Byte.x02].
Proof.
  assert (Hc : data_cache (w_cache small_cap_world) !! path_a = None) by reflexivity.
  assert (Hf : w_fs small_cap_world !! path_a = Some [Byte.x01; Byte.x02])
    by reflexivity.
  assert (Hb : (data_max_item_size (w_cache small_cap_world) <
                Z.of_nat (length [Byte.x01; Byte.x02]))%Z) by (simpl; lia).
  destruct (GetSubject_oversize_file_not_found small_cap_world path_a
              [Byte.x01; Byte.x02] Hc Hf Hb) as (H1 & _ & H3).
  split; assumption.
Defined.

Lemma worker_set_always_completes_witness :
  let m := mkMutation MUTATION_OP_SET_SUBJECT path_a 0 [Byte.x01] (Some 7) in
  let s := set_writer small_cap_world [m] in
  w_trace (process_mutation (set_writer s []) m false) =
    [EvFileWrite path_a [Byte.x01] false; EvCompletion 7; EvDone m].
Proof.
  intros m s.
  assert (Hw : w_writer s = m :: []) by reflexivity.
  assert (Hn : 0 < w_writers s) by (simpl; lia).
  assert (Hop : op m = MUTATION_OP_SET_SUBJECT) by reflexivity.
  destruct (worker_set_always_completes s m [] false Hw Hn Hop)
    as (_ & _ & _ & Ht & _).
  rewrite Ht. reflexivity.
Defined.

Lemma write_through_returns_after_completion_witness :
  let s1 := start_call wt_world wt_call true in
  let s2 := send s1 wt_call wt_mutation None in
  let s3 := set_pc s2 (after_select s2 wt_call wt_mutation None) in
  let s4 := process_mutation (set_writer s3 []) wt_mutation true in
  let s5 := set_pc s4 (PReturned (call_result wt_call None)) in
  steps wt_world s5 /\ processed wt_mutation (w_trace s5).
Proof.
  intros s1 s2 s3 s4 s5.
  assert (Hrun : steps wt_world s5).
  { apply (rtc_l _ wt_world s1); [apply step_caller, cs_start; reflexivity|].
    apply (rtc_l _ s1 s2).
    { apply step_caller, (cs_select_send s1 wt_call wt_mutation None);
        [reflexivity|vm_compute; lia]. }
    apply (rtc_l _ s2 s3).
    { apply step_caller, (cs_after_select s2 wt_call wt_mutation None). reflexivity. }
    apply (rtc_l _ s3 s4).
    { apply step_worker, (ws_receive s3 wt_mutation [] true);
        [reflexivity|vm_compute; lia]. }
    apply (rtc_l _ s4 s5).
    { apply step_caller, (cs_wait s4 wt_call wt_mutation None); reflexivity. }
    apply rtc_refl. }
  split; [exact Hrun|].
  assert (Hpc : w_pc wt_world = PStart wt_call) by reflexivity.
  assert (Hb : (w_buffer wt_world < 0)%Z) by (simpl; lia).
  assert (Hf : Forall (fun m' => wg m' < length (w_wgs wt_world)) (w_writer wt_world))
    by constructor.
  assert (He : forall m', EvEnqueue m' ∉ w_trace wt_world)
    by (intros m' Hin; inversion Hin).
  assert (Hin : EvEnqueue wt_mutation ∈ w_trace s5) by (vm_compute; set_solver).
  assert (Hr : w_pc s5 = PReturned (call_result wt_call None)) by reflexivity.
  exact (write_through_returns_after_completion wt_world s5 wt_call wt_mutation
           (call_result wt_call None) Hpc Hb Hf He Hrun Hin Hr).
Defined.

Lemma DeleteSubject_cancelled_never_returns_witness :
  let c := CallDeleteSubject path_a in
  let s1 := start_call cancelled_delete_world c true in
  let s2 := match w_pc s1 with
            | PSelect c m err => set_pc s1 (on_ctx_done c m err)
            | _ => s1 end in
  caller_step cancelled_delete_world s1 /\ caller_step s1 s2 /\
  forall s r, steps s2 s -> w_pc s <> PReturned r.
Proof.
  intros c s1 s2.
  assert (H1 : caller_step cancelled_delete_world s1)
    by (apply (cs_start cancelled_delete_world c true); reflexivity).
  assert (H2 : caller_step s1 s2).
  { apply (cs_select_ctx s1 c
             (mkMutation MUTATION_OP_DEL_SUBJECT path_a 0 [] None) None);
      reflexivity. }
  split; [done|]. split; [done|].
  intros s r Hs.
  assert (Hpc : w_pc cancelled_delete_world = PStart (CallDeleteSubject path_a))
    by reflexivity.
  assert (Hb : (w_buffer cancelled_delete_world < 0)%Z) by (simpl; lia).
  assert (Hf : Forall (fun m' => wg m' < length (w_wgs cancelled_delete_world))
                      (w_writer cancelled_delete_world)) by constructor.
  assert (Hw : w_writer s2 = w_writer s1) by reflexivity.
  exact (DeleteSubject_cancelled_never_returns cancelled_delete_world s1 s2 s
           path_a r Hpc Hb Hf H1 H2 Hw Hs).
Defined.

Lemma SetSubject_bypasses_writer_witness :
  serialize path_a (Some [Byte.x03]) = Ok [Byte.x03] /\
  let s1 := start_call small_cap_world (CallSetSubject path_a (Some [Byte.x03])) true in
  w_writer s1 = w_writer small_cap_world /\
  w_fs s1 = <[path_a := [Byte.x03]]> (w_fs small_cap_world).
Proof.
  assert (Hser : serialize path_a (Some [Byte.x03]) = Ok [Byte.x03]) by reflexivity.
  split; [exact Hser|].
  destruct (SetSubject_bypasses_writer small_cap_world path_a (Some [Byte.x03]) true
              [Byte.x03] Hser) as (_ & R2 & _ & _ & _ & R6).
  split; [exact R2|]. exact (R6 eq_refl).
Defined.

(** C3 counterexample: in the write-through run of [wt_call] where the
    disk rejects the writer goroutine's write, the call returns nil after
    its mutation was enqueued and handled, yet the file was never written. *)
Lemma write_through_failed_write_counterexample :
  steps wt_world wt_failed_final /\
  EvEnqueue wt_mutation ∈ w_trace wt_failed_final /\
  w_pc wt_failed_final = PReturned None /\
  w_fs wt_failed_final !! path_a = None.
Proof.
  split.
  - unfold wt_failed_final.
    set (s1 := start_call wt_world wt_call true).
    set (s2 := send s1 wt_call wt_mutation None).
    set (s3 := set_pc s2 (after_select s2 wt_call wt_mutation None)).
    set (s4 := process_mutation (set_writer s3 []) wt_mutation false).
    apply (rtc_l _ wt_world s1); [apply step_caller, cs_start; reflexivity|].
    apply (rtc_l _ s1 s2).
    { apply step_caller, (cs_select_send s1 wt_call wt_mutation None);
        [reflexivity|vm_compute; lia]. }
    apply (rtc_l _ s2 s3).
    { apply step_caller, (cs_after_select s2 wt_call wt_mutation None). reflexivity. }
    apply (rtc_l _ s3 s4).
    { apply step_worker, (ws_receive s3 wt_mutation [] false);
        [reflexivity|vm_compute; lia]. }
    apply rtc_once, step_caller, (cs_wait s4 wt_call wt_mutation None); reflexivity.
  - split; [vm_compute; set_solver|]. split; reflexivity.
Qed.

(* ------------------------------------------------------------------ *)
(** ** The expiration policy *)

Lemma list_ascii_of_string_append (s t : string) :
  String.list_ascii_of_string (String.append s t) =
    String.list_ascii_of_string s ++ String.list_ascii_of_string t.
Proof. induction s as [|a s IH]; simpl; [done|by rewrite IH]. Qed.

Lemma list_ascii_of_string_inj (s t : string) :
  String.list_ascii_of_string s = String.list_ascii_of_string t -> s = t.
Proof.
  intros H. rewrite <- (String.string_of_list_ascii_of_string s),
    <- (String.string_of_list_ascii_of_string t), H. done.
Qed.

(** ExpirationPolicy exempts from expiry exactly the keys that end in
    "ping.db" ([false]); every other key may expire ([true]). *)
Theorem ExpirationPolicy_exempts_ping (key : string) :
  ExpirationPolicy key = false <->
  exists prefix, key = String.append prefix "ping.db".
Proof.
  unfold ExpirationPolicy, HasSuffix.
  set (x := String.list_ascii_of_string "ping.db").
  set (l := String.list_ascii_of_string key).
  split.
  - destruct (Nat.leb (length x) (length l) &&
              bool_decide (drop (length l - length x) l = x)) eqn:E;
      [|discriminate].
    intros _. apply andb_true_iff in E as [_ E2].
    apply bool_decide_eq_true in E2.
    exists (String.string_of_list_ascii (take (length l - length x) l)).
    apply list_ascii_of_string_inj.
    rewrite list_ascii_of_string_append, String.list_ascii_of_string_of_list_ascii.
    fold x l. rewrite <- E2 at 2. by rewrite take_drop.
  - intros [prefix ->].
    subst l. rewrite list_ascii_of_string_append. fold x.
    rewrite length_app, Nat.add_sub, drop_app_length.
    rewrite bool_decide_eq_true_2; [|done].
    rewrite (proj2 (Nat.leb_le _ _)); [done|lia].
Qed.

(* ------------------------------------------------------------------ *)
(** ** The constructor *)

(** Whatever the Datastore section holds, the directory cache gets the
    data cache's entry count: MemcacheDatastoreMaxDirSize only sets the
    directory cache's per-item cap. Positive size fields are passed on
    unchanged. *)
Theorem NewMemcacheFileDataStore_dir_count_is_data_count (d : DatastoreConfig) :
  exists p, NewMemcacheFileDataStore (mkConfig (Some d)) = Some p /\
    lru_max_size (dir_cache_params p) = lru_max_size (data_cache_params p) /\
    ((0 < MemcacheDatastoreMaxSize d)%Z ->
       lru_max_size (data_cache_params p) = MemcacheDatastoreMaxSize d) /\
    ((0 < MemcacheDatastoreMaxItemSize d)%Z ->
       lru_max_item_size (data_cache_params p) = MemcacheDatastoreMaxItemSize d) /\
    ((0 < MemcacheDatastoreMaxDirSize d)%Z ->
       lru_max_item_size (dir_cache_params p) = MemcacheDatastoreMaxDirSize d).
Proof.
  eexists. split; [reflexivity|]. simpl. split; [done|].
  repeat split; intros H; by rewrite (proj2 (Z.ltb_lt _ _) H).
Qed.

(* ------------------------------------------------------------------ *)
(** ** Composing directory-cache invalidations *)

Lemma dropped_after_drop (dc : DirectoryLRUCache) (u : DSPathSpec)
    (cs k : list string) :
  dropped (drop_nonfull_ancestors dc u) cs k =
    dropped dc cs k && negb (dropped dc (Components u) k).
Proof.
  unfold dropped at 1. rewrite drop_nonfull_ancestors_spec.
  destruct (dropped dc (Components u) k); simpl.
  - by rewrite !andb_false_r.
  - rewrite andb_true_r. done.
Qed.

(** Invalidating the directory cache twice for the same path is the same
    as invalidating it once. *)
Theorem invalidateDirCache_idempotent (dc : DirectoryLRUCache) (u : DSPathSpec) :
  invalidateDirCache (invalidateDirCache dc u) u = invalidateDirCache dc u.
Proof.
  unfold invalidateDirCache. apply map_eq. intros k.
  rewrite !drop_nonfull_ancestors_spec, dropped_after_drop.
  destruct (dropped dc (Components u) k); done.
Qed.

Section Extras.
Context {Message : Type} `{!Codec Message}.

(* ------------------------------------------------------------------ *)
(** ** What each step does to the data cache *)

Lemma core_SetData_data (c : MemcacheDatastore) (u : DSPathSpec) (b : bytes) :
  data_cache (core_SetData c u b).1 =
    (if Z.ltb (data_max_item_size c) (Z.of_nat (length b))
     then data_cache c else <[u := b]> (data_cache c)) /\
  data_max_item_size (core_SetData c u b).1 = data_max_item_size c.
Proof.
  unfold core_SetData. destruct (get_file_dir_metadata _ _) as [? []]; done.
Qed.

Lemma core_SetData_none (c : MemcacheDatastore) (u : DSPathSpec) (b : bytes) :
  (core_SetData c u b).2 = None.
Proof.
  unfold core_SetData. destruct (get_file_dir_metadata _ _) as [? []]; done.
Qed.

Lemma process_mutation_data (s : World (Message:=Message)) (m : Mutation)
    (fs_ok : bool) :
  data_cache (w_cache (process_mutation s m fs_ok)) = data_cache (w_cache s) /\
  data_max_item_size (w_cache (process_mutation s m fs_ok)) =
    data_max_item_size (w_cache s) /\
  w_pc (process_mutation s m fs_ok) = w_pc s /\
  w_writers (process_mutation s m fs_ok) = w_writers s.
Proof.
  unfold process_mutation.
  destruct (Nat.eqb (op m) MUTATION_OP_SET_SUBJECT).
  - destruct (writeContentToFile _ _ _ _). done.
  - destruct (Nat.eqb (op m) MUTATION_OP_DEL_SUBJECT);
      [destruct (file_based_DeleteSubject _ _ _)|]; done.
Qed.

Definition not_started (s : World (Message:=Message)) : Prop :=
  forall c, w_pc s <> PStart c.

Lemma step_not_started (s s' : World (Message:=Message)) :
  step s s' -> not_started s ->
  data_cache (w_cache s') = data_cache (w_cache s) /\
  data_max_item_size (w_cache s') = data_max_item_size (w_cache s) /\
  not_started s'.
Proof.
  intros Hst Hns. destruct Hst as [Hst|Hst|Hst].
  - destruct Hst as [s c fs_ok Hs|s c m err Hs Hctx|s c m err Hs Hlen
                    |s c m err Hs|s c m err Hs H0].
    + by destruct (Hns c).
    + split; [done|]. split; [done|]. intros c' E. simpl in E.
      destruct c; discriminate.
    + split; [done|]. split; [done|]. intros c' E. discriminate.
    + split; [done|]. split; [done|]. intros c' E. simpl in E.
      unfold after_select in E. destruct (Z.ltb _ _); discriminate.
    + split; [done|]. split; [done|]. intros c' E. discriminate.
  - destruct Hst as [s Hctx Hn|s m q fs_ok Hw Hn].
    + done.
    + destruct (process_mutation_data (set_writer s q) m fs_ok) as (H1 & H2 & H3 & _).
      rewrite H1, H2. split; [done|]. split; [done|].
      intros c E. rewrite H3 in E. by apply (Hns c).
  - destruct Hst as [s]. done.
Qed.

Lemma steps_not_started (s s' : World (Message:=Message)) :
  steps s s' -> not_started s ->
  data_cache (w_cache s') = data_cache (w_cache s) /\
  data_max_item_size (w_cache s') = data_max_item_size (w_cache s) /\
  not_started s'.
Proof.
  induction 1 as [s|s s1 s' Hst Hs IH]; intros Hns; [done|].
  destruct (step_not_started s s1 Hst Hns) as (H1 & H2 & H3).
  destruct (IH H3) as (H4 & H5 & H6). rewrite H4, H5. done.
Qed.

Lemma step_from_start (s s' : World (Message:=Message)) (c : call) :
  w_pc s = PStart c -> step s s' ->
  (exists fs_ok, s' = start_call s c fs_ok) \/
  (w_pc s' = PStart c /\ data_cache (w_cache s') = data_cache (w_cache s) /\
   data_max_item_size (w_cache s') = data_max_item_size (w_cache s)).
Proof.
  intros Hpc Hst. destruct Hst as [Hst|Hst|Hst].
  - destruct Hst as [s0 c0 fs_ok Hs|s0 c0 m err Hs Hctx|s0 c0 m err Hs Hlen
                    |s0 c0 m err Hs|s0 c0 m err Hs H0];
      rewrite Hpc in Hs; try discriminate.
    injection Hs as <-. left. eauto.
  - right. destruct Hst as [s0 Hctx Hn|s0 m q fs_ok Hw Hn]; [done|].
    destruct (process_mutation_data (set_writer s0 q) m fs_ok) as (H1 & H2 & H3 & _).
    rewrite H1, H2, H3. done.
  - right. destruct Hst as [s0]. done.
Qed.

Lemma start_call_stores (s : World (Message:=Message)) (c : call) (u : DSPathSpec)
    (b : bytes) (fs_ok : bool) :
  stores c u b ->
  data_cache (w_cache (start_call s c fs_ok)) = data_cache (core_SetData (w_cache s) u b).1 /\
  data_max_item_size (w_cache (start_call s c fs_ok)) = data_max_item_size (w_cache s) /\
  not_started (start_call s c fs_ok).
Proof.
  pose proof (core_SetData_data (w_cache s) u b) as [_ Hcap].
  pose proof (core_SetData_none (w_cache s) u b) as Hn.
  destruct c as [u' msg cb|u' msg|u' data cb|u']; simpl; intros Hst.
  - destruct Hst as [-> Hser]. rewrite Hser. unfold core_SetSubject. rewrite Hser.
    destruct (core_SetData (w_cache s) u b) as [c' e]. simpl.
    split; [done|]. split; [done|]. intros c0 E. discriminate.
  - destruct Hst as [-> Hser]. rewrite Hser.
    destruct (core_SetData (w_cache s) u b) as [c' e]. simpl in Hn. subst e.
    destruct (writeContentToFile (w_fs s) u b fs_ok). simpl.
    split; [done|]. split; [done|]. intros c0 E. discriminate.
  - destruct Hst as [-> ->].
    destruct (core_SetData (w_cache s) u b) as [c' e]. simpl in Hn. subst e. simpl.
    split; [done|]. split; [done|]. intros c0 E. discriminate.
  - done.
Qed.

(** The data cache once a call of the write path has started, in every
    continuation of the run. *)
Lemma set_call_data_cache (s0 s : World (Message:=Message)) (c : call)
    (u : DSPathSpec) (b : bytes) :
  w_pc s0 = PStart c -> stores c u b -> steps s0 s -> not_started s ->
  data_cache (w_cache s) =
    if Z.ltb (data_max_item_size (w_cache s0)) (Z.of_nat (length b))
    then data_cache (w_cache s0) else <[u := b]> (data_cache (w_cache s0)).
Proof.
  intros Hpc Hst Hs. revert Hpc. induction Hs as [s0|s0 s1 s Hstep Hs IH];
    intros Hpc Hns.
  - by destruct (Hns c).
  - destruct (step_from_start s0 s1 c Hpc Hstep) as [[fs_ok ->]|(Hpc1 & Hd & Hc)].
    + destruct (start_call_stores s0 c u b fs_ok Hst) as (H1 & H2 & H3).
      destruct (steps_not_started _ _ Hs H3) as (H4 & _ & _).
      rewrite H4, H1. apply core_SetData_data.
    + rewrite (IH Hpc1 Hns), Hd, Hc. done.
Qed.

(* ------------------------------------------------------------------ *)
(** ** Reads after writes *)

(** Read after write for the raw bytes: once a SetSubject,
    SetSubjectWithCompletion or SetBuffer call storing [b] at [u] has
    returned, whatever its select chose and whatever the writer goroutines
    and cancellation did meanwhile, GetBuffer on [u] returns [b] from the
    data cache, provided [b] is within the per-item cap (the data cache is
    modelled without LRU eviction). The file is not read, so this holds
    whether or not a read would fail. *)
Theorem set_call_read_after_write (s0 s : World (Message:=Message)) (c : call)
    (u : DSPathSpec) (b : bytes) (r : option error) (read_ok : bool) :
  w_pc s0 = PStart c -> stores c u b ->
  (Z.of_nat (length b) <= data_max_item_size (w_cache s0))%Z ->
  steps s0 s -> w_pc s = PReturned r ->
  GetBuffer s u read_ok = (inc_hit s, Ok b).
Proof.
  intros Hpc Hst Hb Hs Hr.
  assert (Hns : not_started s) by (intros c' E; congruence).
  pose proof (set_call_data_cache s0 s c u b Hpc Hst Hs Hns) as Hd.
  rewrite (proj2 (Z.ltb_ge _ _) Hb) in Hd.
  unfold GetBuffer, core_GetBuffer. rewrite Hd, lookup_insert_eq. done.
Qed.

(** Read after write for messages: once SetSubject or
    SetSubjectWithCompletion of [message] at [u] has returned, GetSubject
    on [u] returns [message], provided its encoding [b] is within the
    per-item cap and decodes back to [message] (no LRU eviction). *)
Theorem SetSubject_read_after_write (s0 s : World (Message:=Message))
    (u : DSPathSpec) (message : Message) (cb : option nat) (b : bytes)
    (r : option error) (read_ok : bool) :
  (w_pc s0 = PStart (CallSetSubjectWithCompletion u message cb) \/
   w_pc s0 = PStart (CallSetSubject u message)) ->
  serialize u message = Ok b -> deserialize u b = Ok message ->
  (Z.of_nat (length b) <= data_max_item_size (w_cache s0))%Z ->
  steps s0 s -> w_pc s = PReturned r ->
  GetSubject s u read_ok = (inc_hit s, Ok message).
Proof.
  intros Hpc Hser Hde Hb Hs Hr.
  assert (Hns : not_started s) by (intros c' E; congruence).
  assert (Hd : data_cache (w_cache s) = <[u := b]> (data_cache (w_cache s0))).
  { destruct Hpc as [Hpc|Hpc];
      [rewrite (set_call_data_cache s0 s _ u b Hpc (conj eq_refl Hser) Hs Hns)
      |rewrite (set_call_data_cache s0 s _ u b Hpc (conj eq_refl Hser) Hs Hns)];
      by rewrite (proj2 (Z.ltb_ge _ _) Hb). }
  unfold GetSubject, core_GetSubject. rewrite Hd, lookup_insert_eq, Hde. done.
Qed.

(* ------------------------------------------------------------------ *)
(** ** Reads after a write-behind DeleteSubject *)


(* ------------------------------------------------------------------ *)
(** ** SetSubject when the disk rejects the write *)

(** When its own file write fails, SetSubject returns the write error,
    yet a payload within the per-item cap is already in the data cache:
    GetBuffer returns the new bytes as a hit, without reading the file. *)
Theorem SetSubject_write_error_keeps_cache (s : World (Message:=Message))
    (u : DSPathSpec) (message : Message) (b : bytes) (read_ok : bool) :
  serialize u message = Ok b ->
  (Z.of_nat (length b) <= data_max_item_size (w_cache s))%Z ->
  let s1 := start_call s (CallSetSubject u message) false in
  w_pc s1 = PReturned (Some ErrIO) /\
  GetBuffer s1 u read_ok = (inc_hit s1, Ok b).
Proof.
  intros Hser Hb. simpl. rewrite Hser.
  pose proof (core_SetData_data (w_cache s) u b) as [Hd _].
  pose proof (core_SetData_none (w_cache s) u b) as Hn.
  destruct (core_SetData (w_cache s) u b) as [c' e]. simpl in Hn, Hd. subst e.
  simpl. split; [done|].
  unfold GetBuffer, core_GetBuffer. simpl. rewrite Hd.
  rewrite (proj2 (Z.ltb_ge _ _) Hb), lookup_insert_eq. done.
Qed.

(* ------------------------------------------------------------------ *)
(** ** GetSubject on a payload that does not decode *)

(** A cached payload that fails to decode is counted as a data-cache hit:
    GetSubject returns the decode error without reading the file, and the
    payload stays cached. *)
Theorem GetSubject_decode_error_is_hit (s : World (Message:=Message))
    (u : DSPathSpec) (b : bytes) (e : error) (read_ok : bool) :
  data_cache (w_cache s) !! u = Some b ->
  deserialize u b = Err e -> IsNotExist e = false ->
  GetSubject s u read_ok = (inc_hit s, Err e).
Proof.
  intros Hc Hd He. unfold GetSubject, core_GetSubject. rewrite Hc, Hd, He. done.
Qed.

(* ------------------------------------------------------------------ *)
(** ** A negative number of writers *)

Lemma start_call_events (s : World (Message:=Message)) (c : call) (fs_ok : bool) :
  w_writers (start_call s c fs_ok) = w_writers s /\
  exists evs, w_trace (start_call s c fs_ok) = w_trace s ++ evs /\
              forall m, EvDone m ∉ evs.
Proof.
  assert (Hnil : w_trace s = w_trace s ++ []) by (by rewrite app_nil_r).
  destruct c as [u msg cb|u msg|u b cb|u]; simpl.
  - destruct (serialize u msg) as [b0|e]; simpl.
    + destruct (core_SetSubject (w_cache s) u msg). simpl.
      split; [done|]. exists []. split; [done|set_solver].
    + split; [done|]. exists []. split; [done|set_solver].
  - destruct (serialize u msg) as [b0|e]; simpl.
    + destruct (core_SetData (w_cache s) u b0) as [c' [e|]]; simpl.
      * split; [done|]. exists []. split; [done|set_solver].
      * destruct (writeContentToFile (w_fs s) u b0 fs_ok). simpl.
        split; [done|]. eexists. split; [done|set_solver].
    + split; [done|]. exists []. split; [done|set_solver].
  - destruct (core_SetData (w_cache s) u b) as [c' [e|]]; simpl;
      (split; [done|]); exists []; (split; [done|set_solver]).
  - destruct (core_DeleteSubject (w_cache s) u). simpl.
    split; [done|]. exists []. split; [done|set_solver].
Qed.

(** The world has no writer goroutine, no mutation was processed, and, in
    write-through mode, a call whose WaitGroup was allocated is parked on it. *)
Definition no_writers_inv (s : World (Message:=Message)) : Prop :=
  w_writers s = 0 /\ (forall m, EvDone m ∉ w_trace s) /\
  ((w_buffer s < 0)%Z ->
   match w_pc s with
   | PStart _ | PReturned _ => forall m, EvEnqueue m ∉ w_trace s
   | PSelect _ m _ => w_wgs s !! wg m = Some 1 /\ forall m', EvEnqueue m' ∉ w_trace s
   | PAfterSelect _ m _ | PWait _ m _ => w_wgs s !! wg m = Some 1
   end).

Lemma no_writers_step (s s' : World (Message:=Message)) :
  no_writers_inv s -> step s s' -> no_writers_inv s'.
Proof.
  intros (Hw & Hd & Hp) Hst. destruct Hst as [Hst|Hst|Hst].
  - destruct Hst as [s c fs_ok Hs|s c m err Hs Hctx|s c m err Hs Hlen
                    |s c m err Hs|s c m err Hs H0].
    + destruct (start_call_events s c fs_ok) as (Hw' & evs & Ht & Hevs).
      destruct (start_call_shape s c fs_ok)
        as (_ & Hb' & (evs' & Ht' & Hevs') & [(r & Hr & Hg')|(c' & m & err & Hp' & Hwg & Hg')]).
      * split; [congruence|]. split.
        { intros m Hin. rewrite Ht in Hin. apply elem_of_app in Hin as [Hin|Hin];
            [by apply (Hd m)|by apply (Hevs m)]. }
        intros Hneg. rewrite Hr. rewrite Hb' in Hneg. specialize (Hp Hneg).
        rewrite Hs in Hp. intros m Hin. rewrite Ht' in Hin.
        apply (Hp m). by eapply enqueue_not_in_app.
      * split; [congruence|]. split.
        { intros m0 Hin. rewrite Ht in Hin. apply elem_of_app in Hin as [Hin|Hin];
            [by apply (Hd m0)|by apply (Hevs m0)]. }
        intros Hneg. rewrite Hp'. rewrite Hb' in Hneg. specialize (Hp Hneg).
        rewrite Hs in Hp. split.
        -- rewrite Hg', Hwg. apply list_lookup_middle. done.
        -- intros m' Hin. rewrite Ht' in Hin. apply (Hp m').
           by eapply enqueue_not_in_app.
    + split; [done|]. split; [done|]. intros Hneg. specialize (Hp Hneg).
      rewrite Hs in Hp. destruct Hp as [H1 He]. simpl.
      destruct c; simpl; done.
    + split; [done|]. split.
      { intros m0 Hin. simpl in Hin. apply elem_of_app in Hin as [Hin|Hin];
          [by apply (Hd m0)|by apply list_elem_of_singleton in Hin]. }
      intros Hneg. specialize (Hp Hneg). rewrite Hs in Hp. simpl. by destruct Hp.
    + split; [done|]. split; [done|]. intros Hneg. simpl in Hneg.
      specialize (Hp Hneg). rewrite Hs in Hp. simpl. unfold after_select.
      rewrite (proj2 (Z.ltb_lt _ _) Hneg). done.
    + split; [done|]. split; [done|]. intros Hneg. specialize (Hp Hneg).
      rewrite Hs in Hp. congruence.
  - destruct Hst as [s Hctx Hn|s m q fs_ok Hq Hn]; lia.
  - destruct Hst as [s]. done.
Qed.

Lemma no_writers_steps (s s' : World (Message:=Message)) :
  no_writers_inv s -> steps s s' -> no_writers_inv s'.
Proof. intros Hi Hs. induction Hs; eauto using no_writers_step. Qed.

(** With a negative MemcacheWriteMutationWriters, StartWriter's loop starts
    no writer goroutine: in every run no mutation is ever processed (no
    wg.Done(), no completion), and in write-through mode a call that sent
    its mutation never returns. *)
Theorem StartWriter_negative_writers (d : DatastoreConfig) (cache : MemcacheDatastore)
    (fs : gmap DSPathSpec bytes) (c : call) (s : World (Message:=Message)) :
  (MemcacheWriteMutationWriters d < 0)%Z ->
  steps (StartWriter d cache fs (PStart c)) s ->
  w_writers s = 0 /\ (forall m, EvDone m ∉ w_trace s) /\
  ((MemcacheWriteMutationBuffer d < 0)%Z ->
   forall m r, EvEnqueue m ∈ w_trace s -> w_pc s <> PReturned r).
Proof.
  intros Hw Hs.
  assert (Hi : no_writers_inv (StartWriter d cache fs (PStart c))).
  { unfold no_writers_inv, StartWriter, StartWriter_writers. simpl.
    rewrite (proj2 (Z.eqb_neq _ 0)); [|lia].
    split; [lia|]. split; [intros m Hin; inversion Hin|].
    intros _ m Hin. inversion Hin. }
  destruct (no_writers_steps _ _ Hi Hs) as (H1 & H2 & H3).
  split; [done|]. split; [done|].
  intros Hneg m r Hin Hr.
  assert (Hb : w_buffer s = MemcacheWriteMutationBuffer d).
  { clear -Hs. remember (StartWriter d cache fs (PStart c)) as s0 eqn:E.
    assert (w_buffer s0 = MemcacheWriteMutationBuffer d) as Hb0 by (by subst s0).
    clear E. induction Hs as [s0|s0 s1 s Hst Hs IH]; [done|].
    apply IH. rewrite <- Hb0.
    destruct Hst as [Hst|Hst|Hst].
    - destruct Hst as [s0 c0 fs_ok Hs0|s0 c0 m0 err Hs0 Hctx|s0 c0 m0 err Hs0 Hlen
                      |s0 c0 m0 err Hs0|s0 c0 m0 err Hs0 H0]; try done.
      apply start_call_shape.
    - destruct Hst as [s0 Hctx Hn|s0 m0 q fs_ok Hq Hn]; [done|].
      destruct (process_mutation_shape (set_writer s0 q) m0 fs_ok)
        as (_ & _ & _ & Hb' & _). rewrite Hb'. done.
    - destruct Hst as [s0]. done. }
  rewrite Hb in H3. specialize (H3 Hneg). rewrite Hr in H3.
  by apply (H3 m).
Qed.

(* ------------------------------------------------------------------ *)
(** ** A write-through DeleteSubject *)






(* ------------------------------------------------------------------ *)
(** ** Filling the data cache on a read miss *)

(** On a data-cache miss GetBuffer reads the file. When the read fails
    with an I/O error, that error is returned and nothing changes. When the
    file exists and is read, its bytes are returned and a miss is counted;
    the next GetBuffer is then a cache hit when the payload is within the
    per-item cap, and otherwise reads the file again and counts another
    miss. *)
Theorem GetBuffer_fill (s : World (Message:=Message)) (u : DSPathSpec) (b : bytes) :
  data_cache (w_cache s) !! u = None -> w_fs s !! u = Some b ->
  GetBuffer s u false = (s, Err ErrIO) /\
  let s1 := (GetBuffer s u true).1 in
  (GetBuffer s u true).2 = Ok b /\ w_miss s1 = S (w_miss s) /\ w_hit s1 = w_hit s /\
  ((Z.of_nat (length b) <= data_max_item_size (w_cache s))%Z ->
     forall read_ok, GetBuffer s1 u read_ok = (inc_hit s1, Ok b)) /\
  ((data_max_item_size (w_cache s) < Z.of_nat (length b))%Z ->
     (GetBuffer s1 u true).2 = Ok b /\ w_miss (GetBuffer s1 u true).1 = S (w_miss s1)).
Proof.
  intros Hc Hf.
  split.
  { unfold GetBuffer, core_GetBuffer. rewrite Hc. done. }
  assert (Hg : GetBuffer s u true =
               (set_cache (inc_miss s) (core_SetData (w_cache s) u b).1, Ok b)).
  { unfold GetBuffer, core_GetBuffer. rewrite Hc.
    unfold readContentFromFile. rewrite Hf. simpl.
    destruct (core_SetData (w_cache s) u b). done. }
  pose proof (core_SetData_data (w_cache s) u b) as [Hd Hcap].
  rewrite Hg. simpl. split; [done|]. split; [done|]. split; [done|]. split.
  - intros Hb read_ok. unfold GetBuffer at 1, core_GetBuffer. simpl.
    rewrite Hd, (proj2 (Z.ltb_ge _ _) Hb), lookup_insert_eq. done.
  - intros Hb. unfold GetBuffer, core_GetBuffer. simpl.
    rewrite Hd, (proj2 (Z.ltb_lt _ _) Hb), Hc.
    unfold readContentFromFile. simpl. rewrite Hf. simpl.
    destruct (core_SetData (core_SetData (w_cache s) u b).1 u b). done.
Qed.

End Extras.

(* ------------------------------------------------------------------ *)
(** ** Concrete runs for the further properties *)

Lemma wt_world_run : steps wt_world wt_final.
Proof.
  unfold wt_final.
  set (s1 := start_call wt_world wt_call true).
  set (s2 := send s1 wt_call wt_mutation None).
  set (s3 := set_pc s2 (after_select s2 wt_call wt_mutation None)).
  set (s4 := process_mutation (set_writer s3 []) wt_mutation true).
  apply (rtc_l _ wt_world s1); [apply step_caller, cs_start; reflexivity|].
  apply (rtc_l _ s1 s2).
  { apply step_caller, (cs_select_send s1 wt_call wt_mutation None);
      [reflexivity|vm_compute; lia]. }
  apply (rtc_l _ s2 s3).
  { apply step_caller, (cs_after_select s2 wt_call wt_mutation None). reflexivity. }
  apply (rtc_l _ s3 s4).
  { apply step_worker, (ws_receive s3 wt_mutation [] true);
      [reflexivity|vm_compute; lia]. }
  apply rtc_once, step_caller, (cs_wait s4 wt_call wt_mutation None); reflexivity.
Qed.

Lemma set_call_read_after_write_witness :
  steps wt_world wt_final /\
  GetBuffer wt_final path_a true = (inc_hit wt_final, Ok [Byte.x01]).
Proof.
  assert (Hpc : w_pc wt_world = PStart wt_call) by reflexivity.
  assert (Hst : stores wt_call path_a [Byte.x01]) by (hnf; split; reflexivity).
  assert (Hb : (Z.of_nat (length [Byte.x01]) <= data_max_item_size (w_cache wt_world))%Z)
    by (simpl; lia).
  assert (Hr : w_pc wt_final = PReturned None) by reflexivity.
  split; [exact wt_world_run|].
  exact (set_call_read_after_write wt_world wt_final wt_call path_a [Byte.x01] None true
           Hpc Hst Hb wt_world_run Hr).
Defined.

Lemma SetSubject_read_after_write_witness :
  steps wt_world wt_final /\
  GetSubject wt_final path_a true = (inc_hit wt_final, Ok (Some [Byte.x01])).
Proof.
  assert (Hpc : w_pc wt_world =
                PStart (CallSetSubjectWithCompletion path_a (Some [Byte.x01]) (Some 7)) \/
                w_pc wt_world = PStart (CallSetSubject path_a (Some [Byte.x01])))
    by (left; reflexivity).
  assert (Hser : serialize path_a (Some [Byte.x01]) = Ok [Byte.x01]) by reflexivity.
  assert (Hde : deserialize path_a [Byte.x01] = Ok (Some [Byte.x01])) by reflexivity.
  assert (Hb : (Z.of_nat (length [Byte.x01]) <= data_max_item_size (w_cache wt_world))%Z)
    by (simpl; lia).
  assert (Hr : w_pc wt_final = PReturned None) by reflexivity.
  split; [exact wt_world_run|].
  exact (SetSubject_read_after_write wt_world wt_final path_a (Some [Byte.x01]) (Some 7)
           [Byte.x01] None true Hpc Hser Hde Hb wt_world_run Hr).
Defined.


Lemma SetSubject_write_error_keeps_cache_witness :
  let s1 := start_call small_cap_world (CallSetSubject path_a (Some [Byte.x03])) false in
  w_pc s1 = PReturned (Some ErrIO) /\
  GetBuffer s1 path_a false = (inc_hit s1, Ok [Byte.x03]).
Proof.
  assert (Hser : serialize path_a (Some [Byte.x03]) = Ok [Byte.x03]) by reflexivity.
  assert (Hb : (Z.of_nat (length [Byte.x03]) <=
                data_max_item_size (w_cache small_cap_world))%Z) by (simpl; lia).
  destruct (SetSubject_write_error_keeps_cache small_cap_world path_a (Some [Byte.x03])
              [Byte.x03] false Hser Hb) as (R1 & R3).
  intros s1. split; [exact R1|exact R3].
Defined.

Lemma GetSubject_decode_error_is_hit_witness :
  GetSubject corrupt_world path_a true = (inc_hit corrupt_world, Err (ErrDecode 1)).
Proof.
  apply (GetSubject_decode_error_is_hit corrupt_world path_a [] (ErrDecode 1) true);
    reflexivity.
Defined.

Lemma StartWriter_negative_writers_witness :
  let m := mkMutation MUTATION_OP_SET_SUBJECT path_a 0 [Byte.x01] None in
  let s1 := start_call no_writers_world no_writers_call true in
  let s2 := send s1 no_writers_call m None in
  let s3 := set_pc s2 (after_select s2 no_writers_call m None) in
  steps no_writers_world s3 /\ EvEnqueue m ∈ w_trace s3 /\ w_writers s3 = 0 /\
  forall r, w_pc s3 <> PReturned r.
Proof.
  intros m s1 s2 s3.
  assert (Hrun : steps no_writers_world s3).
  { apply (rtc_l _ no_writers_world s1); [apply step_caller, cs_start; reflexivity|].
    apply (rtc_l _ s1 s2).
    { apply step_caller, (cs_select_send s1 no_writers_call m None);
        [reflexivity|vm_compute; lia]. }
    apply rtc_once, step_caller, (cs_after_select s2 no_writers_call m None).
    reflexivity. }
  assert (Hin : EvEnqueue m ∈ w_trace s3) by (vm_compute; set_solver).
  assert (Hw : (MemcacheWriteMutationWriters no_writers_datastore < 0)%Z) by (simpl; lia).
  assert (Hb : (MemcacheWriteMutationBuffer no_writers_datastore < 0)%Z) by (simpl; lia).
  destruct (StartWriter_negative_writers no_writers_datastore (mkCore ∅ 65536 ∅) ∅
              no_writers_call s3 Hw Hrun) as (R1 & _ & R3).
  split; [exact Hrun|]. split; [exact Hin|]. split; [exact R1|].
  intros r. exact (R3 Hb m r Hin).
Defined.



Lemma GetBuffer_fill_witness :
  GetBuffer small_cap_world path_a false = (small_cap_world, Err ErrIO) /\
  (GetBuffer small_cap_world path_a true).2 = Ok [Byte.x01; Byte.x02] /\
  (GetBuffer (GetBuffer small_cap_world path_a true).1 path_a true).2
    = Ok [Byte.x01; Byte.x02] /\
  w_miss (GetBuffer (GetBuffer small_cap_world path_a true).1 path_a true).1 = 2.
Proof.
  assert (Hc : data_cache (w_cache small_cap_world) !! path_a = None) by reflexivity.
  assert (Hf : w_fs small_cap_world !! path_a = Some [Byte.x01; Byte.x02])
    by reflexivity.
  destruct (GetBuffer_fill small_cap_world path_a [Byte.x01; Byte.x02] Hc Hf)
    as (R0 & R1 & R2 & _ & _ & R5).
  assert (Hb : (data_max_item_size (w_cache small_cap_world) <
                Z.of_nat (length [Byte.x01; Byte.x02]))%Z) by (simpl; lia).
  destruct (R5 Hb) as [R6 R7].
  split; [exact R0|]. split; [exact R1|]. split; [exact R6|].
  rewrite R7, R2. reflexivity.
Defined.
